(** * Q-Learning-Bot: the grid world (environment.py) and the learner (robot.py)

    A shallow embedding of [Environment], [Robot] and the loop body of
    [main].  Python objects become records that are passed in and returned;
    exceptions become the [Raise] results of a small error monad; NumPy's
    global random state becomes explicit draws handed to each call.

    Numbers.  Python [int]s are [Z].  NumPy [int64]s are [Z] where the
    values are those of the board and of the counters, which come nowhere
    near the 64-bit range, and wrap around in [plot_board], which computes
    with whatever the board holds.  Python [float]s are modelled by
    [pyfloat]: exact rationals extended with the IEEE specials [inf], [-inf]
    and [nan].  The rounding of binary64 arithmetic is not modelled, and a
    finite operation never overflows here: what is stated about the values
    of the table is stated of robots within [safe_magnitude], where the
    code's arithmetic stays finite as well. *)

From Stdlib Require Import ZArith QArith Lqa Lia.
From stdpp Require Import base option list.

Open Scope Z_scope.

(** ** Python floats *)

Inductive pyfloat : Type :=
| Fin (q : Q)
| PInf
| NInf
| NaN.

Module PyFloat.

Definition of_Z (z : Z) : pyfloat := Fin (inject_Z z).

Definition neg (x : pyfloat) : pyfloat :=
  match x with
  | Fin q => Fin (- q)
  | PInf => NInf
  | NInf => PInf
  | NaN => NaN
  end.

Definition add (x y : pyfloat) : pyfloat :=
  match x, y with
  | NaN, _ | _, NaN => NaN
  | Fin a, Fin b => Fin (a + b)
  | PInf, NInf | NInf, PInf => NaN
  | PInf, _ | _, PInf => PInf
  | NInf, _ | _, NInf => NInf
  end.

Definition sub (x y : pyfloat) : pyfloat := add x (neg y).

(** [inf * q]: the sign of [q] decides, and [inf * 0] is [nan]. *)
Definition scale_inf (positive : bool) (q : Q) : pyfloat :=
  match (q ?= 0)%Q with
  | Eq => NaN
  | Gt => if positive then PInf else NInf
  | Lt => if positive then NInf else PInf
  end.

Definition mul (x y : pyfloat) : pyfloat :=
  match x, y with
  | NaN, _ | _, NaN => NaN
  | Fin a, Fin b => Fin (a * b)
  | Fin a, PInf | PInf, Fin a => scale_inf true a
  | Fin a, NInf | NInf, Fin a => scale_inf false a
  | PInf, PInf | NInf, NInf => PInf
  | PInf, NInf | NInf, PInf => NInf
  end.

(** [x <= y]; every comparison with [nan] is false. *)
Definition leb (x y : pyfloat) : bool :=
  match x, y with
  | NaN, _ | _, NaN => false
  | NInf, _ => true
  | _, PInf => true
  | Fin a, Fin b => Qle_bool a b
  | _, _ => false
  end.

(** [x > y], which is [y < x]. *)
Definition gtb (x y : pyfloat) : bool :=
  match x, y with
  | NaN, _ | _, NaN => false
  | PInf, PInf => false
  | PInf, _ => true
  | NInf, _ => false
  | Fin _, PInf => false
  | Fin _, NInf => true
  | Fin a, Fin b => negb (Qle_bool a b)
  end.

Definition isnan (x : pyfloat) : bool :=
  match x with NaN => true | _ => false end.

(** Truth value of a float: everything but zero. *)
Definition truthy (x : pyfloat) : bool :=
  match x with
  | Fin q => negb (Qeq_bool q 0)
  | _ => true
  end.

(** Python's builtin [max(a, b)] with two positional arguments: the first
    one is kept unless the second is strictly greater. *)
Definition max (a b : pyfloat) : pyfloat := if gtb b a then b else a.

End PyFloat.

(** ** Exceptions *)

Inductive pyexn : Type := IndexError | KeyError | ValueError.

(** The outcome of a call: a value, a raised exception, or the supplied
    draws ran out before a loop ended (the [while] loop of [run_bot], and
    the rejection loop of the integer sampler). *)
Inductive res (A : Type) : Type :=
| Ok (a : A)
| Raise (e : pyexn)
| OutOfDraws.
Arguments Ok {A} a.
Arguments Raise {A} e.
Arguments OutOfDraws {A}.

#[global] Instance res_ret : MRet res := λ A a, Ok a.
#[global] Instance res_bind : MBind res := λ A B f m,
  match m with
  | Ok a => f a
  | Raise e => Raise e
  | OutOfDraws => OutOfDraws
  end.

(** ** NumPy arrays as nested lists *)

Module Np.

(** An integer index into an axis of length [n]: negative indices count
    from the end, anything outside [-n, n) raises [IndexError]. *)
Definition index (n : nat) (i : Z) : res nat :=
  if (0 <=? i) && (i <? Z.of_nat n) then Ok (Z.to_nat i)
  else if (- Z.of_nat n <=? i) && (i <? 0) then Ok (Z.to_nat (i + Z.of_nat n))
  else Raise IndexError.

Definition getitem {A} (arr : list A) (i : Z) : res A :=
  k ← index (length arr) i;
  match arr !! k with
  | Some x => Ok x
  | None => Raise IndexError
  end.

Definition setitem {A} (arr : list A) (i : Z) (x : A) : res (list A) :=
  k ← index (length arr) i;
  Ok (<[k := x]> arr).

Definition getitem2 {A} (arr : list (list A)) (i j : Z) : res A :=
  row ← getitem arr i;
  getitem row j.

Definition getitem3 {A} (arr : list (list (list A))) (i j k : Z) : res A :=
  plane ← getitem arr i;
  row ← getitem plane j;
  getitem row k.

Definition setitem3 {A} (arr : list (list (list A))) (i j k : Z) (x : A)
  : res (list (list (list A))) :=
  plane ← getitem arr i;
  row ← getitem plane j;
  row' ← setitem row k x;
  plane' ← setitem plane j row';
  setitem arr i plane'.

(** [np.full(shape, v)] *)
Definition full2 {A} (h w : nat) (v : A) : list (list A) :=
  replicate h (replicate w v).
Definition full3 {A} (h w d : nat) (v : A) : list (list (list A)) :=
  replicate h (replicate w (replicate d v)).

(** One component of a basic index: [:], an integer, or [a:b]. *)
Inductive sel : Type := All | At (i : nat) | Slice (a b : nat).

Definition selects (s : sel) (i : nat) : bool :=
  match s with
  | All => true
  | At k => Nat.eqb i k
  | Slice a b => Nat.leb a i && Nat.ltb i b
  end.

(** [arr[s] = v] on one axis, [on] saying what to do with a selected
    element. *)
Definition assign_axis {A} (s : sel) (on : A → A) (arr : list A) : list A :=
  imap (λ i x, if selects s i then on x else x) arr.

(** [arr[si, sj] = v] and [arr[si, sj, sk] = v] *)
Definition assign2 {A} (si sj : sel) (v : A) : list (list A) → list (list A) :=
  assign_axis si (assign_axis sj (λ _, v)).
Definition assign3 {A} (si sj sk : sel) (v : A)
  : list (list (list A)) → list (list (list A)) :=
  assign_axis si (assign_axis sj (assign_axis sk (λ _, v))).

(** [np.argmax] on a one-dimensional float array: the first index holding
    the maximum, a [nan] counting as the maximum.  The scan keeps the best
    value [mp] and its index and moves on an element [x] with
    [not (x <= mp)]. *)
Fixpoint argmax_scan (mp : pyfloat) (best i : nat) (xs : list pyfloat) : nat :=
  match xs with
  | [] => best
  | x :: xs' =>
      if PyFloat.isnan mp then best
      else if negb (PyFloat.leb x mp) then argmax_scan x i (S i) xs'
      else argmax_scan mp best (S i) xs'
  end.

Definition argmax (xs : list pyfloat) : res Z :=
  match xs with
  | [] => Raise ValueError
  | x :: xs' => Ok (Z.of_nat (argmax_scan x 0 1 xs'))
  end.

(** [np.random.choice(n, p=p)], given the uniform sample [u] of [[0,1)]
    that the generator hands it: [p] must have [n] non-negative entries
    that sum to one ([ValueError] otherwise); the result is the number of
    entries of the cumulative sums of [p] that are [<= u]
    ([searchsorted(..., side='right')]).  As the sum is one, dividing the
    cumulative sums by their last entry changes nothing and is left out. *)
Fixpoint cumsum (acc : Q) (p : list Q) : list Q :=
  match p with
  | [] => []
  | x :: p' => (acc + x)%Q :: cumsum (acc + x)%Q p'
  end.

Fixpoint searchsorted_right (cdf : list Q) (u : Q) : nat :=
  match cdf with
  | [] => 0
  | c :: cdf' => if Qle_bool c u then S (searchsorted_right cdf' u) else 0
  end.

Definition Qsum (p : list Q) : Q := foldr Qplus 0%Q p.

Definition valid_p (n : nat) (p : list Q) : bool :=
  Nat.eqb (length p) n && forallb (Qle_bool 0) p && Qeq_bool (Qsum p) 1.

Definition random_choice (n : nat) (p : list Q) (u : Q) : res Z :=
  if valid_p n p then Ok (Z.of_nat (searchsorted_right (cumsum 0 p) u))
  else Raise ValueError.

(** [np.random.random_integers(low, high)], which is
    [randint(low, high + 1)] of the legacy generator, given the words [ws]
    that the generator hands it.  An empty range raises [ValueError]; a
    range of one value is returned without a draw; otherwise a word is
    masked with the smallest [2^k - 1] that is at least [high - low], and
    taken if it is at most [high - low], else the next word is tried
    (rejection sampling); the value taken is added to [low]. *)
Definition interval_mask (rng : Z) : Z := Z.ones (Z.log2 rng + 1).

Fixpoint bounded_masked (rng mask : Z) (ws : list Z) : res Z :=
  match ws with
  | [] => OutOfDraws
  | w :: ws' =>
      let value := Z.land w mask in
      if rng <? value then bounded_masked rng mask ws' else Ok value
  end.

Definition random_integers (low high : Z) (ws : list Z) : res Z :=
  if high <? low then Raise ValueError
  else
    let rng := high - low in
    if rng =? 0 then Ok low
    else value ← bounded_masked rng (interval_mask rng) ws; Ok (low + value).

(** A list of floats given as [p]: [nan] and infinities are rejected. *)
Fixpoint finite_p (p : list pyfloat) : res (list Q) :=
  match p with
  | [] => Ok []
  | Fin q :: p' => qs ← finite_p p'; Ok (q :: qs)
  | _ :: _ => Raise ValueError
  end.

End Np.

(** A dict literal with integer keys, and its subscript. *)
Fixpoint dict_get {A} (d : list (Z * A)) (k : Z) : res A :=
  match d with
  | [] => Raise KeyError
  | (k', v) :: d' => if k =? k' then Ok v else dict_get d' k
  end.

(** ** environment.py *)

(** A state is the two-element list [[row, col]]. *)
Definition state : Type := Z * Z.

Record Environment : Type := {
  board_rewards : list (list Z);
  allowed_actions : list (list (list pyfloat));
  final_states : list state;
  robot_state : state
}.

Definition set_robot_state (s : state) (self : Environment) : Environment :=
  {| board_rewards := board_rewards self;
     allowed_actions := allowed_actions self;
     final_states := final_states self;
     robot_state := s |}.

(** The four uniform samples consumed by one [receive_action]: the dict
    literal calls [np.random.choice] once per key before it is
    subscripted. *)
Record kernel_draws : Type := {
  u0 : Q;
  u1 : Q;
  u2 : Q;
  u3 : Q
}.

Module Environment.

Import Np.

Definition height : nat := 5.
Definition width : nat := 5.

Definition init_board_rewards : list (list Z) :=
  let board_rewards := full2 height width 0 in
  let board_rewards := assign2 (At 1) (At 1) (-100) board_rewards in
  let board_rewards := assign2 (At 1) (At 2) 50 board_rewards in
  let board_rewards := assign2 (At 1) (At 3) 100 board_rewards in
  board_rewards.

(** actions: 0=up, 1=left, 2=down, 3=right *)
Definition init_allowed_actions : list (list (list pyfloat)) :=
  let zero := Fin 0 in
  let allowed_actions := full3 5 5 4 (Fin 1) in
  let allowed_actions := assign3 All (At 0) (At 1) zero allowed_actions in
  let allowed_actions := assign3 All (At 4) (At 3) zero allowed_actions in
  let allowed_actions := assign3 (At 0) All (At 0) zero allowed_actions in
  let allowed_actions := assign3 (At 4) All (At 2) zero allowed_actions in
  let allowed_actions := assign3 (Slice 1 4) All (At 3) zero allowed_actions in
  let allowed_actions := assign3 (Slice 1 4) All (At 1) zero allowed_actions in
  let allowed_actions := assign3 (At 0) (At 1) (At 2) zero allowed_actions in
  let allowed_actions := assign3 (At 1) (At 2) (At 2) zero allowed_actions in
  let allowed_actions := assign3 (At 0) (At 3) (At 2) zero allowed_actions in
  let allowed_actions := assign3 (At 1) (At 1) (At 0) zero allowed_actions in
  let allowed_actions := assign3 (At 2) (At 2) (At 0) zero allowed_actions in
  let allowed_actions := assign3 (At 1) (At 3) (At 0) zero allowed_actions in
  allowed_actions.

Definition init : Environment :=
  {| board_rewards := init_board_rewards;
     allowed_actions := init_allowed_actions;
     final_states := [(1, 1); (1, 2); (1, 3)];
     robot_state := (0, 0) |}.

Definition reset (self : Environment) : Environment :=
  set_robot_state (0, 0) self.

(** The weights [p] of the four [np.random.choice] calls, by the key
    they are stored under. *)
Definition kernel : list (Z * list Q) :=
  [ (0, [0.8; 0.1; 0; 0.1]%Q);
    (1, [0.1; 0.8; 0.1; 0]%Q);
    (2, [0; 0.1; 0.8; 0.1]%Q);
    (3, [0.1; 0; 0.1; 0.8]%Q) ].

(** The distorted action: the four draws of the dict literal, then its
    subscript by [action]. *)
Definition randomized_action (action : Z) (us : kernel_draws) : res Z :=
  c0 ← random_choice 4 [0.8; 0.1; 0; 0.1]%Q (u0 us);
  c1 ← random_choice 4 [0.1; 0.8; 0.1; 0]%Q (u1 us);
  c2 ← random_choice 4 [0; 0.1; 0.8; 0.1]%Q (u2 us);
  c3 ← random_choice 4 [0.1; 0; 0.1; 0.8]%Q (u3 us);
  dict_get [(0, c0); (1, c1); (2, c2); (3, c3)] action.

(** The dict of candidate next states, subscripted by the distorted
    action. *)
Definition next_state (s : state) (randomized_action : Z) : res state :=
  dict_get [ (0, (s.1 - 1, s.2));   (* move up *)
             (1, (s.1, s.2 - 1));   (* move left *)
             (2, (s.1 + 1, s.2));   (* move down *)
             (3, (s.1, s.2 + 1)) ]  (* move right *)
           randomized_action.

Definition state_eqb (a b : state) : bool := (a.1 =? b.1) && (a.2 =? b.2).

(** [x in l] *)
Definition contains (l : list state) (x : state) : bool :=
  existsb (state_eqb x) l.

(** Returns the environment after the call and the returned triple
    (new state, reward, game over). *)
Definition receive_action (self : Environment) (action : Z) (us : kernel_draws)
  : res (Environment * (state * Z * bool)) :=
  let state := robot_state self in
  randomized_action ← randomized_action action us;
  allowed ← getitem3 (allowed_actions self) state.1 state.2 randomized_action;
  if PyFloat.truthy allowed then
    new_state ← next_state state randomized_action;
    let self := set_robot_state new_state self in
    let game_over := contains (final_states self) (robot_state self) in
    reward ← getitem2 (board_rewards self) (robot_state self).1 (robot_state self).2;
    Ok (self, (robot_state self, reward - 1, game_over))
  else
    Ok (self, (robot_state self, -1, false)).

End Environment.

(** ** robot.py *)

Record Robot : Type := {
  alpha : pyfloat;
  epsilon : pyfloat;
  gamma : pyfloat;
  epsilon_decrease : pyfloat;
  actions : list Z;
  plotting : bool;
  iteration : Z;
  Q_table : list (list (list pyfloat));
  game_over : bool;
  total_reward : Z
}.

(** The draws consumed by one [update_bot]: the uniform sample behind
    [take_best_action], the 32-bit words of the generator that
    [np.random.random_integers(0, 3)] works on (looked at on the exploring
    branch only), and the samples of the environment's call. *)
Record step_draws : Type := {
  d_take_best : Q;
  d_random_words : list Z;
  d_kernel : kernel_draws
}.

Module Robot.

Import Np.

Definition init (alpha epsilon gamma epsilon_decrease : pyfloat) : Robot :=
  {| alpha := alpha;
     epsilon := epsilon;
     gamma := gamma;
     epsilon_decrease := epsilon_decrease;
     actions := [0; 1; 2; 3];
     plotting := false;
     iteration := 0;
     Q_table := full3 5 5 4 (Fin (-1));
     game_over := false;
     total_reward := 0 |}.

(** The keyword defaults of [__init__]. *)
Definition init_default : Robot :=
  init (Fin 0.1) (Fin 1) (Fin 0.98) (Fin (1 / 2000)).

Definition restart (self : Robot) : Robot :=
  {| alpha := alpha self;
     epsilon := PyFloat.max (PyFloat.sub (epsilon self) (epsilon_decrease self))
                            (PyFloat.of_Z 0);
     gamma := gamma self;
     epsilon_decrease := epsilon_decrease self;
     actions := actions self;
     plotting := plotting self;
     iteration := iteration self + 1;
     Q_table := Q_table self;
     game_over := false;
     total_reward := 0 |}.

(** The [for] loop of [max_reachable_q], [max_reachable_q] being the
    running maximum. *)
Fixpoint max_reachable_q_loop (Q_table allowed_actions : list (list (list pyfloat)))
    (state : state) (max_reachable_q : pyfloat) (actions : list Z) : res pyfloat :=
  match actions with
  | [] => Ok max_reachable_q
  | action :: rest =>
      allowed ← getitem3 allowed_actions state.1 state.2 action;
      if PyFloat.truthy allowed then
        q ← getitem3 Q_table state.1 state.2 action;
        if PyFloat.gtb q max_reachable_q then
          q' ← getitem3 Q_table state.1 state.2 action;
          max_reachable_q_loop Q_table allowed_actions state q' rest
        else
          max_reachable_q_loop Q_table allowed_actions state max_reachable_q rest
      else
        max_reachable_q_loop Q_table allowed_actions state max_reachable_q rest
  end.

Definition max_reachable_q (self : Robot) (state : state)
    (allowed_actions : list (list (list pyfloat))) : res pyfloat :=
  max_reachable_q_loop (Q_table self) allowed_actions state NInf (actions self).

(** [self.Q_table[i, j, :]] *)
Definition Q_row (self : Robot) (s : state) : res (list pyfloat) :=
  plane ← getitem (Q_table self) s.1;
  getitem plane s.2.

(** The epsilon-greedy choice at the head of [update_bot]. *)
Definition choose_action (self : Robot) (state : state) (d : step_draws) : res Z :=
  p ← finite_p [PyFloat.sub (PyFloat.of_Z 1) (epsilon self); epsilon self];
  i ← random_choice 2 p (d_take_best d);
  take_best_action ← getitem [1; 0] i;
  if negb (take_best_action =? 0) then
    row ← Q_row self state;
    argmax row   (* choose action with the highest Q-value *)
  else
    random_integers 0 3 (d_random_words d).   (* choose random action *)

Definition set_outcome (game_over : bool) (new_reward : Z) (self : Robot) : Robot :=
  {| alpha := alpha self;
     epsilon := epsilon self;
     gamma := gamma self;
     epsilon_decrease := epsilon_decrease self;
     actions := actions self;
     plotting := plotting self;
     iteration := iteration self;
     Q_table := Q_table self;
     game_over := game_over;
     total_reward := total_reward self + new_reward |}.

Definition set_Q_table (t : list (list (list pyfloat))) (self : Robot) : Robot :=
  {| alpha := alpha self;
     epsilon := epsilon self;
     gamma := gamma self;
     epsilon_decrease := epsilon_decrease self;
     actions := actions self;
     plotting := plotting self;
     iteration := iteration self;
     Q_table := t;
     game_over := game_over self;
     total_reward := total_reward self |}.

Definition set_plotting (b : bool) (self : Robot) : Robot :=
  {| alpha := alpha self;
     epsilon := epsilon self;
     gamma := gamma self;
     epsilon_decrease := epsilon_decrease self;
     actions := actions self;
     plotting := b;
     iteration := iteration self;
     Q_table := Q_table self;
     game_over := game_over self;
     total_reward := total_reward self |}.

(** The one-step Q-learning target and the value written back by the
    augmented assignment, in exact arithmetic: the code rounds each of the
    five operations and, past the largest float, gives an infinity. *)
Definition backup (self : Robot) (old : pyfloat) (new_reward : Z) (v old' : pyfloat)
  : pyfloat :=
  PyFloat.add old
    (PyFloat.mul (alpha self)
       (PyFloat.sub
          (PyFloat.add (PyFloat.of_Z new_reward) (PyFloat.mul (gamma self) v))
          old')).

(** [state] is the list that [environment.robot_state] names before the
    call; [receive_action] binds the attribute to a new list and never
    writes into the old one, so [state] still is the cell the action was
    chosen for.  [plot_board] draws on a copy of the rewards and changes
    neither object, so the plotting branch is left out. *)
Definition update_bot (self : Robot) (environment : Environment) (d : step_draws)
  : res (Robot * Environment) :=
  let state := robot_state environment in
  action ← choose_action self state d;
  '(environment, (new_state, new_reward, game_over)) ←
    Environment.receive_action environment action (d_kernel d);
  let self := set_outcome game_over new_reward self in
  old ← getitem3 (Q_table self) state.1 state.2 action;
  v ← max_reachable_q self new_state (allowed_actions environment);
  old' ← getitem3 (Q_table self) state.1 state.2 action;
  t ← setitem3 (Q_table self) state.1 state.2 action (backup self old new_reward v old');
  Ok (set_Q_table t self, environment).

(** The [while not self.game_over] loop of [run_bot], one element of
    [ds] per iteration. *)
Fixpoint run_loop (self : Robot) (environment : Environment) (ds : list step_draws)
  : res (Robot * Environment) :=
  if game_over self then Ok (self, environment)
  else match ds with
       | [] => OutOfDraws
       | d :: ds' =>
           '(self, environment) ← update_bot self environment d;
           run_loop self environment ds'
       end.

(** The prints and the final pause are left out. *)
Definition run_bot (self : Robot) (environment : Environment) (plotting : bool)
    (ds : list step_draws) : res (Robot * Environment) :=
  let self := set_plotting plotting self in
  let self := restart self in
  run_loop self environment ds.

End Robot.

(** ** main.py *)

Module Main.

Definition rob : Robot :=
  Robot.init (Fin 0.1) (Fin 1) (Fin 0.98) (Fin (1 / 3000)).

Definition env : Environment := Environment.init.

(** The body of the [for i in range(3050)] loop. *)
Definition iteration (rob : Robot) (env : Environment) (i : Z) (ds : list step_draws)
  : res (Robot * Environment) :=
  let env := Environment.reset env in
  Robot.run_bot rob env (3000 <=? i) ds.

(** The loop itself, [dss] holding the draws of the successive
    simulations: one iteration per element ([main] runs 3050). *)
Fixpoint loop (rob : Robot) (env : Environment) (i : Z) (dss : list (list step_draws))
  : res (Robot * Environment) :=
  match dss with
  | [] => Ok (rob, env)
  | ds :: dss' =>
      '(rob, env) ← iteration rob env i ds;
      loop rob env (i + 1) dss'
  end.

End Main.

(** ** robot.py: the picture drawn by [plot_board] *)

Module Plotting.

Import Np.

(** [np.amin] and [np.amax] of a two-dimensional array: the reduction of
    an array without elements raises [ValueError]. *)
Definition amin (arr : list (list Z)) : res Z :=
  match concat arr with
  | [] => Raise ValueError
  | x :: xs => Ok (foldl Z.min x xs)
  end.

Definition amax (arr : list (list Z)) : res Z :=
  match concat arr with
  | [] => Raise ValueError
  | x :: xs => Ok (foldl Z.max x xs)
  end.

(** The arithmetic of an [int64] array, NumPy's integers: a result out of
    range wraps around and raises nothing. *)
Definition wrap64 (z : Z) : Z := (z + 2 ^ 63) mod 2 ^ 64 - 2 ^ 63.

(** [a / b] on integers, NumPy's true division into floats: a zero
    divisor raises nothing and gives [nan] or an infinity.  The quotient is
    the exact one, the float nearest to it in the code. *)
Definition true_divide (a b : Z) : pyfloat :=
  if b =? 0 then
    if a =? 0 then NaN else if 0 <? a then PInf else NInf
  else Fin (inject_Z a / inject_Z b).

(** [astype(int)]: truncation towards zero.  What the cast makes of
    [nan] and of the infinities depends on the platform; it is the
    parameter [invalid]. *)
Definition astype_int (invalid : Z) (x : pyfloat) : Z :=
  match x with
  | Fin q => Z.quot (Qnum q) (Z.pos (Qden q))
  | _ => invalid
  end.

Definition setitem2 {A} (arr : list (list A)) (i j : Z) (x : A)
  : res (list (list A)) :=
  row ← getitem arr i;
  row' ← setitem row j x;
  setitem arr i row'.

(** The array that [plot_board] hands to [plt.imshow]; the calls of
    matplotlib are left out.  The rewards are not written to: the
    normalised pixels are a new array. *)
Definition plot_board (invalid : Z) (board_rewards : list (list Z))
    (robot_state : state) : res (list (list Z)) :=
  let board_pixels := board_rewards in
  lo ← amin board_pixels;
  hi ← amax board_pixels;
  lo' ← amin board_pixels;
  (* normalize pixels to 0-255 *)
  let board_pixels :=
    map (map (λ x, astype_int invalid
                     (true_divide (wrap64 (wrap64 (x - lo) * 255))
                                  (wrap64 (hi - lo')))))
        board_pixels in
  setitem2 board_pixels robot_state.1 robot_state.2 300.

End Plotting.

(** A rectangular array of the shape [(h, w)]. *)
Definition shape2 {A} (h w : nat) (arr : list (list A)) : Prop :=
  length arr = h ∧ Forall (λ row, length row = w) arr.

(** Rewards of at most 40 bits.  On such a board no difference and no
    product of [plot_board] leaves [int64], the two operands of its division
    are below [2 ^ 53] and so floats themselves, and a quotient of theirs
    in [0, 255] that is not an integer is further from the next integer
    than the rounding of the division can move it: the cast truncates the
    float to what it truncates the exact quotient to. *)
Definition small_rewards (board : list (list Z)) : Prop :=
  Forall (Forall (λ y, - 2 ^ 40 <= y <= 2 ^ 40)) board.

(** ** Notions used in the statements *)

(** Grid cells and action numbers. *)
Definition in_bounds (s : state) : Prop :=
  0 <= s.1 < Z.of_nat Environment.height ∧ 0 <= s.2 < Z.of_nat Environment.width.

Definition is_action (a : Z) : Prop := 0 <= a <= 3.

(** What the [if] on [allowed_actions[row, col, action]] tests. *)
Definition legal (allowed_actions : list (list (list pyfloat))) (s : state) (a : Z)
  : bool :=
  match Np.getitem3 allowed_actions s.1 s.2 a with
  | Ok m => PyFloat.truthy m
  | _ => false
  end.

(** A sample of the half-open unit interval. *)
Definition unit_draw (u : Q) : Prop := (0 <= u < 1)%Q.

(** The sample that decides the distorted action, and the weights it is
    drawn with. *)
Definition draw_for (action : Z) (us : kernel_draws) : Q :=
  match action with
  | 0 => u0 us
  | 1 => u1 us
  | 2 => u2 us
  | _ => u3 us
  end.

Definition weights (intended : Z) : list Q :=
  match dict_get Environment.kernel intended with
  | Ok p => p
  | _ => []
  end.

Definition weight (intended realized : Z) : Q :=
  nth (Z.to_nat realized) (weights intended) 0%Q.

(** The total weight of the actions listed before [realized]. *)
Definition weight_before (intended realized : Z) : Q :=
  Np.Qsum (take (Z.to_nat realized) (weights intended)).

(** Directions, read off the offsets of [next_state]. *)
Definition offset (a : Z) : state :=
  match Environment.next_state (0, 0) a with
  | Ok d => d
  | _ => (0, 0)
  end.

Definition opposite (a b : Z) : bool :=
  ((offset a).1 + (offset b).1 =? 0) && ((offset a).2 + (offset b).2 =? 0).

Definition orthogonal (a b : Z) : bool :=
  (offset a).1 * (offset b).1 + (offset a).2 * (offset b).2 =? 0.

(** An environment as [Environment()] builds it, the robot standing on
    any cell of the board. *)
Definition env_ok (env : Environment) : Prop :=
  board_rewards env = Environment.init_board_rewards ∧
  allowed_actions env = Environment.init_allowed_actions ∧
  final_states env = final_states Environment.init ∧
  in_bounds (robot_state env).

Definition kernel_draws_ok (us : kernel_draws) : Prop :=
  unit_draw (u0 us) ∧ unit_draw (u1 us) ∧ unit_draw (u2 us) ∧ unit_draw (u3 us).

(** A scripted run of the environment alone: [receive_action] once per
    element of [steps], the returned triples collected in order. *)
Fixpoint receive_actions (env : Environment) (steps : list (Z * kernel_draws))
  : res (Environment * list (state * Z * bool)) :=
  match steps with
  | [] => Ok (env, [])
  | (action, us) :: rest =>
      '(env, out) ← Environment.receive_action env action us;
      '(env, outs) ← receive_actions env rest;
      Ok (env, out :: outs)
  end.

(** A step of a scripted run that [receive_action] can be given. *)
Definition step_ok (st : Z * kernel_draws) : Prop :=
  is_action st.1 ∧ unit_draw (draw_for st.1 st.2).

(** A table of the shape [(h, w, d)]. *)
Definition shape3 {A} (h w d : nat) (t : list (list (list A))) : Prop :=
  length t = h ∧
  Forall (λ plane, length plane = w ∧ Forall (λ row, length row = d) plane) t.

Definition is_finite (x : pyfloat) : Prop := ∃ q, x = Fin q.

(** A robot as [Robot(...)] builds it and the updates keep it: the four
    actions, a 5x5x4 table of finite values, finite [alpha] and [gamma],
    and an [epsilon] that is a probability. *)
Definition robot_ok (self : Robot) : Prop :=
  actions self = [0; 1; 2; 3] ∧
  shape3 5 5 4 (Q_table self) ∧
  Forall (Forall (Forall is_finite)) (Q_table self) ∧
  is_finite (alpha self) ∧
  is_finite (gamma self) ∧
  ∃ e, epsilon self = Fin e ∧ (0 <= e <= 1)%Q.

(** A 32-bit word of the generator. *)
Definition is_word (w : Z) : Prop := 0 <= w < 2 ^ 32.

(** Draws that the generator can produce for one [update_bot]: samples of
    the unit interval, and at least one word, all of 32 bits. *)
Definition step_draws_ok (d : step_draws) : Prop :=
  unit_draw (d_take_best d) ∧
  (d_random_words d ≠ [] ∧ Forall is_word (d_random_words d)) ∧
  kernel_draws_ok (d_kernel d).

(** A mask that allows nothing anywhere. *)
Definition blocked_mask : list (list (list pyfloat)) := Np.full3 5 5 4 (Fin 0).

(** Concrete inputs for the examples: every sample at one half, so that
    no action is distorted. *)
Definition half_draws : kernel_draws :=
  {| u0 := 1 # 2; u1 := 1 # 2; u2 := 1 # 2; u3 := 1 # 2 |}.

(** Draws of one [update_bot]: the sample of [take_best_action] at zero
    (greedy whenever [epsilon < 1]) or at one half, a single word of the
    generator (the word 2 gives "down", a word [action] of 0..3 gives that
    action), and no distortion. *)
Definition greedy_draws : step_draws :=
  {| d_take_best := 0; d_random_words := [2]; d_kernel := half_draws |}.

Definition explore_draws (action : Z) : step_draws :=
  {| d_take_best := 1 # 2; d_random_words := [action]; d_kernel := half_draws |}.

(** The robot on (0, 2), right above the final state (1, 2). *)
Definition above_final : Environment := set_robot_state (0, 2) Environment.init.

(** An environment left on the final state (1, 1) by a finished
    simulation, and the draws of two exploring steps, "down" then "up". *)
Definition episode_end : Environment := set_robot_state (1, 1) Environment.init.

Definition down_up : list step_draws := [explore_draws 2; explore_draws 0].

(** Draws of a simulation that walks right, right and down from the start
    cell into the final state (1, 2). *)
Definition right_right_down : list step_draws :=
  [explore_draws 3; explore_draws 3; explore_draws 2].

(** Steps of a scripted run in which no action is distorted. *)
Definition undistorted (actions : list Z) : list (Z * kernel_draws) :=
  map (λ a, (a, half_draws)) actions.

(** A way from a cell of the board into a final state, as a list of
    actions: along row 0 to column 2 and down, up the outer columns to
    row 0, up columns 1 and 3, and around the wall below (1, 2). *)
Definition way_out (s : state) : list Z :=
  match s.2 with
  | 0 => replicate (Z.to_nat s.1) 0 ++ [3; 3; 2]
  | 4 => replicate (Z.to_nat s.1) 0 ++ [1; 1; 2]
  | 2 => match s.1 with
         | 0 => [2]
         | 1 => [0; 2]
         | _ => replicate (Z.to_nat (4 - s.1)) 2 ++ [1; 0; 0; 0]
         end
  | _ => match s.1 with
         | 0 => if s.2 =? 1 then [3; 2] else [1; 2]
         | 1 => [2; 0]
         | _ => replicate (Z.to_nat (s.1 - 1)) 0
         end
  end.

(** A finite value between [lo] and [hi], and a table of such values. *)
Definition within (lo hi : Q) (x : pyfloat) : Prop :=
  ∃ q, x = Fin q ∧ (lo <= q <= hi)%Q.

Definition table_within (lo hi : Q) (t : list (list (list pyfloat))) : Prop :=
  Forall (Forall (Forall (within lo hi))) t.

(** The magnitude below which the backup of [update_bot] stays in the
    floats: with [alpha] and [gamma] in [0, 1] and entries of at most this
    magnitude, every intermediate value of
    [old + alpha * (reward + gamma * V - old)] is below [3 * 10 ^ 300 + 101],
    and the largest binary64 value is above [10 ^ 308]. *)
Definition safe_magnitude : Q := inject_Z (10 ^ 300).

Definition backup_in_range (self : Robot) : Prop :=
  within 0 1 (alpha self) ∧ within 0 1 (gamma self) ∧
  table_within (- safe_magnitude) safe_magnitude (Q_table self).

(** * Properties *)

(** ** The error monad *)

Lemma bind_Ok {A B} (f : A → res B) (a : A) : (Ok a ≫= f) = f a.
Proof. reflexivity. Qed.

Lemma bind_Ok_inv {A B} (m : res A) (f : A → res B) (b : B) :
  (m ≫= f) = Ok b → ∃ a, m = Ok a ∧ f a = Ok b.
Proof. destruct m as [a | e |]; simpl; [eauto | discriminate | discriminate]. Qed.

(** ** Comparisons of floats *)

Section FloatOrder.

Import PyFloat.

Lemma Qle_bool_false (a b : Q) : Qle_bool a b = false ↔ (b < a)%Q.
Proof.
  split; intros H.
  - apply Qnot_le_lt. intros Hle. apply Qle_bool_iff in Hle. congruence.
  - destruct (Qle_bool a b) eqn:E; [| reflexivity].
    apply Qle_bool_iff in E. apply Qlt_not_le in H. contradiction.
Qed.

Lemma gtb_Fin (a b : Q) : gtb (Fin a) (Fin b) = true ↔ (b < a)%Q.
Proof.
  simpl. rewrite negb_true_iff. apply Qle_bool_false.
Qed.

Lemma gtb_Fin_false (a b : Q) : gtb (Fin a) (Fin b) = false ↔ (a <= b)%Q.
Proof. simpl. rewrite negb_false_iff. apply Qle_bool_iff. Qed.

Lemma leb_Fin (a b : Q) : leb (Fin a) (Fin b) = true ↔ (a <= b)%Q.
Proof. simpl. apply Qle_bool_iff. Qed.

Lemma gtb_irrefl (x : pyfloat) : gtb x x = false.
Proof.
  destruct x as [a | | |]; simpl; try reflexivity.
  rewrite negb_false_iff. apply Qle_bool_iff. apply Qle_refl.
Qed.

Lemma gtb_trans (x y z : pyfloat) :
  gtb x y = true → gtb y z = true → gtb x z = true.
Proof.
  destruct x as [a | | |], y as [b | | |], z as [c | | |];
    simpl; try congruence.
  rewrite !negb_true_iff, !Qle_bool_false. intros H1 H2.
  eapply Qlt_trans; eassumption.
Qed.

End FloatOrder.

(** ** Indexing *)

Section Indexing.

Import Np.
Context {A : Type}.

Lemma index_in_range (n : nat) (i : Z) :
  0 <= i < Z.of_nat n → index n i = Ok (Z.to_nat i).
Proof.
  intros H. unfold index.
  destruct (Z.leb_spec 0 i), (Z.ltb_spec i (Z.of_nat n)); simpl; try lia.
  reflexivity.
Qed.

Lemma getitem_in_range (arr : list A) (i : Z) :
  0 <= i < Z.of_nat (length arr) →
  ∃ x, arr !! Z.to_nat i = Some x ∧ getitem arr i = Ok x.
Proof.
  intros H. unfold getitem. rewrite index_in_range by exact H. simpl.
  destruct (lookup_lt_is_Some_2 arr (Z.to_nat i)) as [x Hx]; [lia |].
  exists x. rewrite Hx. auto.
Qed.

Lemma getitem_lookup (arr : list A) (i : Z) (x : A) :
  0 <= i → arr !! Z.to_nat i = Some x → getitem arr i = Ok x.
Proof.
  intros Hi Hx. pose proof (lookup_lt_Some _ _ _ Hx) as Hlt.
  unfold getitem. rewrite index_in_range by lia. simpl. rewrite Hx. reflexivity.
Qed.

Lemma setitem_in_range (arr : list A) (i : Z) (x : A) :
  0 <= i < Z.of_nat (length arr) →
  setitem arr i x = Ok (<[Z.to_nat i := x]> arr).
Proof.
  intros H. unfold setitem. rewrite index_in_range by exact H. reflexivity.
Qed.

Lemma index_nonneg (n : nat) (i : Z) (k : nat) :
  0 <= i → index n i = Ok k → k = Z.to_nat i.
Proof.
  intros Hi. unfold index.
  destruct ((0 <=? i) && (i <? Z.of_nat n)); [congruence |].
  destruct (Z.ltb_spec i 0); [lia |].
  rewrite andb_false_r. discriminate.
Qed.

Lemma getitem_insert_ne (arr : list A) (i i' : Z) (y : A) :
  0 <= i → 0 <= i' → i' ≠ i →
  getitem (<[Z.to_nat i := y]> arr) i' = getitem arr i'.
Proof.
  intros Hi Hi' Hne. unfold getitem. rewrite length_insert.
  destruct (index (length arr) i') as [n | e |] eqn:E; simpl; try reflexivity.
  apply index_nonneg in E; [| exact Hi']. subst n.
  rewrite list_lookup_insert_ne by lia. reflexivity.
Qed.

End Indexing.

Section Tables.

Import Np.
Context {A : Type}.
Implicit Types t : list (list (list A)).

Lemma shape3_lookup h w d t (i j : nat) plane row :
  shape3 h w d t → t !! i = Some plane → plane !! j = Some row →
  length plane = w ∧ length row = d.
Proof.
  intros [_ Ht] Hp Hr.
  destruct (Forall_lookup_1 _ _ _ _ Ht Hp) as [Hw Hrows].
  split; [exact Hw |]. exact (Forall_lookup_1 _ _ _ _ Hrows Hr).
Qed.

Lemma getitem3_in_range h w d t (i j k : Z) :
  shape3 h w d t →
  0 <= i < Z.of_nat h → 0 <= j < Z.of_nat w → 0 <= k < Z.of_nat d →
  ∃ plane row x,
    t !! Z.to_nat i = Some plane ∧ plane !! Z.to_nat j = Some row ∧
    row !! Z.to_nat k = Some x ∧ getitem3 t i j k = Ok x.
Proof.
  intros Hs Hi Hj Hk. pose proof Hs as [Hh _].
  destruct (getitem_in_range t i) as (plane & Hp & Egp); [lia |].
  destruct (Forall_lookup_1 _ _ _ _ (proj2 Hs) Hp) as [Hw Hrows].
  destruct (getitem_in_range plane j) as (row & Hr & Egr); [lia |].
  pose proof (Forall_lookup_1 _ _ _ _ Hrows Hr) as Hd. simpl in Hd.
  destruct (getitem_in_range row k) as (x & Hx & Egx); [lia |].
  exists plane, row, x. repeat split; try assumption.
  unfold getitem3. rewrite Egp. simpl. rewrite Egr. simpl. exact Egx.
Qed.

(** Writing one entry: the call succeeds, keeps the shape, stores the
    value, and leaves every other entry as it was. *)
Lemma setitem3_in_range h w d t (i j k : Z) (x : A) :
  shape3 h w d t →
  0 <= i < Z.of_nat h → 0 <= j < Z.of_nat w → 0 <= k < Z.of_nat d →
  ∃ t', setitem3 t i j k x = Ok t' ∧ shape3 h w d t' ∧
        getitem3 t' i j k = Ok x ∧
        ∀ i' j' k', 0 <= i' → 0 <= j' → 0 <= k' →
                    (i', j', k') ≠ (i, j, k) →
                    getitem3 t' i' j' k' = getitem3 t i' j' k'.
Proof.
  intros Hs Hi Hj Hk.
  destruct (getitem3_in_range h w d t i j k Hs Hi Hj Hk)
    as (plane & row & y & Hp & Hr & Hy & _).
  destruct (shape3_lookup _ _ _ _ _ _ _ _ Hs Hp Hr) as [Hw Hd].
  pose proof Hs as [Hh Hall].
  set (row' := <[Z.to_nat k := x]> row).
  set (plane' := <[Z.to_nat j := row']> plane).
  set (t' := <[Z.to_nat i := plane']> t).
  assert (Hset : setitem3 t i j k x = Ok t').
  { unfold setitem3.
    rewrite (getitem_lookup t i plane) by (lia || assumption). simpl.
    rewrite (getitem_lookup plane j row) by (lia || assumption). simpl.
    rewrite setitem_in_range by lia. simpl.
    rewrite setitem_in_range by lia. simpl.
    rewrite setitem_in_range by lia. reflexivity. }
  assert (Hp' : t' !! Z.to_nat i = Some plane')
    by (apply list_lookup_insert_eq; lia).
  assert (Hr' : plane' !! Z.to_nat j = Some row')
    by (apply list_lookup_insert_eq; lia).
  assert (Hx' : row' !! Z.to_nat k = Some x)
    by (apply list_lookup_insert_eq; lia).
  exists t'. split; [exact Hset |]. split; [| split].
  - split; [unfold t'; rewrite length_insert; exact Hh |].
    apply Forall_insert; [exact Hall |].
    destruct (Forall_lookup_1 _ _ _ _ Hall Hp) as [_ Hrows].
    split; [unfold plane'; rewrite length_insert; exact Hw |].
    apply Forall_insert; [exact Hrows |].
    unfold row'. rewrite length_insert. exact Hd.
  - unfold getitem3.
    rewrite (getitem_lookup t' i plane') by (lia || assumption). simpl.
    rewrite (getitem_lookup plane' j row') by (lia || assumption). simpl.
    apply getitem_lookup; [lia | assumption].
  - intros i' j' k' Hi' Hj' Hk' Hne. subst t' plane' row'.
    unfold getitem3.
    destruct (decide (i' = i)) as [-> | Hni];
      [| rewrite getitem_insert_ne by lia; reflexivity].
    rewrite (getitem_lookup _ i _ (proj1 Hi) Hp').
    rewrite (getitem_lookup _ i _ (proj1 Hi) Hp). simpl.
    destruct (decide (j' = j)) as [-> | Hnj];
      [| rewrite getitem_insert_ne by lia; reflexivity].
    rewrite (getitem_lookup _ j _ (proj1 Hj) Hr').
    rewrite (getitem_lookup _ j _ (proj1 Hj) Hr). simpl.
    assert (k' ≠ k) by congruence.
    rewrite getitem_insert_ne by lia. reflexivity.
Qed.

End Tables.

(** ** The categorical sampler *)

Section Sampler.

Import Np.
Open Scope Q_scope.

Lemma Qsum_nonneg (p : list Q) : Forall (Qle 0) p → 0 <= Qsum p.
Proof.
  induction 1 as [| x p Hx _ IH]; simpl; [apply Qle_refl | lra].
Qed.

Lemma Forall_take_nonneg (p : list Q) (k : nat) :
  Forall (Qle 0) p → Forall (Qle 0) (take k p).
Proof. apply Forall_take. Qed.

(** A sample [u] of [[acc, acc + sum p)] falls into exactly one of the
    consecutive intervals whose lengths are the entries of [p], and
    [searchsorted_right] finds its index. *)
Lemma searchsorted_right_bounds (p : list Q) :
  ∀ acc u, Forall (Qle 0) p → acc <= u < acc + Qsum p →
    let k := searchsorted_right (cumsum acc p) u in
    (k < length p)%nat ∧
    acc + Qsum (take k p) <= u < acc + Qsum (take (S k) p).
Proof.
  induction p as [| x p IH]; intros acc u Hp Hu; simpl in *.
  - lra.
  - inversion Hp as [| ? ? Hx Hp']; subst.
    destruct (Qle_bool (acc + x) u) eqn:E.
    + apply Qle_bool_iff in E.
      destruct (IH (acc + x) u Hp') as [Hk Hb]; [lra |].
      split; [simpl; lia |]. simpl. simpl in Hb. lra.
    + apply Qle_bool_false in E. split; [simpl; lia |]. simpl. lra.
Qed.

Lemma searchsorted_right_unique (p : list Q) :
  ∀ acc u (j : nat), Forall (Qle 0) p → (j < length p)%nat →
    acc + Qsum (take j p) <= u < acc + Qsum (take (S j) p) →
    searchsorted_right (cumsum acc p) u = j.
Proof.
  induction p as [| x p IH]; intros acc u j Hp Hj Hu; simpl in *; [lia |].
  inversion Hp as [| ? ? Hx Hp']; subst.
  destruct j as [| j]; simpl in Hu.
  - destruct (Qle_bool (acc + x) u) eqn:E; [| reflexivity].
    apply Qle_bool_iff in E. lra.
  - pose proof (Qsum_nonneg (take j p) (Forall_take_nonneg p j Hp')) as Hs.
    destruct (Qle_bool (acc + x) u) eqn:E.
    + f_equal. apply IH; [assumption | lia | lra].
    + apply Qle_bool_false in E. lra.
Qed.

Lemma valid_p_spec (n : nat) (p : list Q) :
  valid_p n p = true ↔ length p = n ∧ Forall (Qle 0) p ∧ Qsum p == 1.
Proof.
  unfold valid_p. rewrite !andb_true_iff, Nat.eqb_eq, Qeq_bool_iff.
  rewrite forallb_forall, Forall_forall.
  split.
  - intros [[H1 H2] H3]. repeat split; try assumption.
    intros x Hx. apply Qle_bool_iff, H2, list_elem_of_In, Hx.
  - intros (H1 & H2 & H3). repeat split; try assumption.
    intros x Hx. apply Qle_bool_iff, H2, list_elem_of_In, Hx.
Qed.

(** [random_choice] on a valid [p] and a sample of [[0,1)]: the result
    is [k] exactly when the sample lies in the [k]-th interval, whose
    length is [p[k]]. *)
Lemma random_choice_spec (n : nat) (p : list Q) (u : Q) (k : Z) :
  valid_p n p = true → 0 <= u < 1 →
  random_choice n p u = Ok k ↔
  (0 <= k < Z.of_nat n)%Z ∧
  Qsum (take (Z.to_nat k) p) <= u < Qsum (take (S (Z.to_nat k)) p).
Proof.
  intros Hv Hu. unfold random_choice. rewrite Hv.
  apply valid_p_spec in Hv as (Hn & Hp & Hs).
  destruct (searchsorted_right_bounds p 0 u Hp) as [Hk Hb]; [lra |].
  split.
  - intros [= <-]. rewrite Nat2Z.id. split; [lia | lra].
  - intros [Hk' Hb']. f_equal.
    rewrite (searchsorted_right_unique p 0 u (Z.to_nat k)); [lia | | lia | lra].
    assumption.
Qed.

Lemma random_choice_total (n : nat) (p : list Q) (u : Q) :
  valid_p n p = true → 0 <= u < 1 →
  ∃ k, random_choice n p u = Ok k ∧ (0 <= k < Z.of_nat n)%Z.
Proof.
  intros Hv Hu. unfold random_choice. rewrite Hv.
  apply valid_p_spec in Hv as (Hn & Hp & Hs).
  destruct (searchsorted_right_bounds p 0 u Hp) as [Hk Hb]; [lra |].
  eexists. split; [reflexivity | lia].
Qed.

End Sampler.

(** ** The stochastic kernel of [receive_action] *)

Section Kernel.

Import Np.
Open Scope Q_scope.

Lemma Qsum_take_S (p : list Q) :
  ∀ k : nat, (k < length p)%nat →
    Qsum (take (S k) p) == Qsum (take k p) + nth k p 0.
Proof.
  induction p as [| x p IH]; intros k Hk; simpl in *; [lia |].
  destruct k as [| k]; simpl; [lra |].
  rewrite (IH k) by lia. simpl. lra.
Qed.

Lemma is_action_cases (a : Z) :
  is_action a → a = 0%Z ∨ a = 1%Z ∨ a = 2%Z ∨ a = 3%Z.
Proof. unfold is_action. lia. Qed.

Lemma valid_weights (a : Z) : is_action a → valid_p 4 (weights a) = true.
Proof.
  intros H. destruct (is_action_cases a H) as [-> | [-> | [-> | ->]]];
    reflexivity.
Qed.

(** Only the draw stored under the key [action] reaches the result. *)
Lemma randomized_action_choice (action : Z) (us : kernel_draws) :
  is_action action →
  Environment.randomized_action action us
  = random_choice 4 (weights action) (draw_for action us).
Proof.
  intros H. unfold Environment.randomized_action, random_choice.
  change (valid_p 4 [0.8; 0.1; 0; 0.1]) with true.
  change (valid_p 4 [0.1; 0.8; 0.1; 0]) with true.
  change (valid_p 4 [0; 0.1; 0.8; 0.1]) with true.
  change (valid_p 4 [0.1; 0; 0.1; 0.8]) with true.
  destruct (is_action_cases action H) as [-> | [-> | [-> | ->]]];
    reflexivity.
Qed.

Lemma randomized_action_total (action : Z) (us : kernel_draws) :
  is_action action → unit_draw (draw_for action us) →
  ∃ ra, Environment.randomized_action action us = Ok ra ∧ is_action ra.
Proof.
  intros Ha Hu. rewrite randomized_action_choice by exact Ha.
  destruct (random_choice_total 4 (weights action) (draw_for action us))
    as (k & Hk & Hr); [apply valid_weights, Ha | exact Hu |].
  exists k. split; [exact Hk |]. unfold is_action. lia.
Qed.

End Kernel.

(** C2. For every intended action the weights of the draw are four
    numbers that sum to one: 0.8 on the intended action, 0.1 on each of
    the two orthogonal ones, 0 on the opposite one.  The distorted action
    is [realized] exactly when the uniform sample falls into the interval
    of that length assigned to [realized]; the robot's state plays no part
    in the draw. *)
Theorem kernel_distribution (intended : Z) :
  is_action intended →
  length (weights intended) = 4%nat ∧
  (Np.Qsum (weights intended) == 1)%Q ∧
  length (List.filter (orthogonal intended) [0; 1; 2; 3]) = 2%nat ∧
  length (List.filter (opposite intended) [0; 1; 2; 3]) = 1%nat ∧
  (∀ realized, is_action realized →
     (weight intended realized ==
      if realized =? intended then 0.8
      else if orthogonal intended realized then 0.1
      else 0)%Q ∧
     (opposite intended realized = true → weight intended realized == 0)%Q) ∧
  (∀ us realized, unit_draw (draw_for intended us) →
     Environment.randomized_action intended us = Ok realized ↔
     is_action realized ∧
     (weight_before intended realized <= draw_for intended us
      < weight_before intended realized + weight intended realized)%Q).
Proof.
  intros Ha.
  split; [| split; [| split; [| split; [| split]]]].
  - destruct (is_action_cases _ Ha) as [-> | [-> | [-> | ->]]]; reflexivity.
  - destruct (is_action_cases _ Ha) as [-> | [-> | [-> | ->]]];
      vm_compute; reflexivity.
  - destruct (is_action_cases _ Ha) as [-> | [-> | [-> | ->]]]; reflexivity.
  - destruct (is_action_cases _ Ha) as [-> | [-> | [-> | ->]]]; reflexivity.
  - intros realized Hr.
    destruct (is_action_cases _ Ha) as [-> | [-> | [-> | ->]]];
      destruct (is_action_cases _ Hr) as [-> | [-> | [-> | ->]]];
      (split; [vm_compute; reflexivity | vm_compute; try discriminate; reflexivity]).
  - intros us realized Hu.
    rewrite randomized_action_choice by exact Ha.
    rewrite (random_choice_spec 4 (weights intended) _ realized
               (valid_weights _ Ha) Hu).
    unfold is_action, weight_before, weight.
    pose proof (valid_weights _ Ha) as Hv.
    apply valid_p_spec in Hv as (Hl & _).
    split; intros [Hr Hb]; (split; [lia |]).
    + rewrite Qsum_take_S in Hb; [exact Hb | lia].
    + rewrite Qsum_take_S; [exact Hb | lia].
Qed.

Lemma kernel_distribution_witness :
  (Np.Qsum (weights 0) == 1)%Q ∧
  (weight 0 0 == 0.8)%Q ∧ (weight 0 1 == 0.1)%Q ∧
  (weight 0 2 == 0)%Q ∧ (weight 0 3 == 0.1)%Q.
Proof.
  assert (H0 : is_action 0) by (unfold is_action; lia).
  destruct (kernel_distribution 0 H0) as (_ & Hsum & _ & _ & Hw & _).
  assert (H1 : is_action 1) by (unfold is_action; lia).
  assert (H2 : is_action 2) by (unfold is_action; lia).
  assert (H3 : is_action 3) by (unfold is_action; lia).
  split; [exact Hsum |].
  split; [exact (proj1 (Hw 0 H0)) |].
  split; [exact (proj1 (Hw 1 H1)) |].
  split; [exact (proj1 (Hw 2 H2)) |].
  exact (proj1 (Hw 3 H3)).
Defined.

(** ** One call of [receive_action] on the board of [Environment()] *)

Section Board.

Import Np.

Lemma in_bounds_cases (s : state) :
  in_bounds s →
  (s.1 = 0 ∨ s.1 = 1 ∨ s.1 = 2 ∨ s.1 = 3 ∨ s.1 = 4) ∧
  (s.2 = 0 ∨ s.2 = 1 ∨ s.2 = 2 ∨ s.2 = 3 ∨ s.2 = 4).
Proof. unfold in_bounds, Environment.height, Environment.width. lia. Qed.

Lemma init_allowed_actions_shape : shape3 5 5 4 Environment.init_allowed_actions.
Proof. split; [reflexivity |]. repeat constructor. Qed.

Lemma allowed_lookup (s : state) (a : Z) :
  in_bounds s → is_action a →
  ∃ m, getitem3 Environment.init_allowed_actions s.1 s.2 a = Ok m.
Proof.
  intros [Hr Hc] Ha. unfold Environment.height, Environment.width in *.
  destruct (getitem3_in_range 5 5 4 _ s.1 s.2 a init_allowed_actions_shape)
    as (_ & _ & m & _ & _ & _ & Hm); unfold is_action in Ha; try lia.
  eauto.
Qed.

(** The mask lets no move leave the board. *)
Lemma allowed_stays_in_bounds (s : state) (a : Z) :
  in_bounds s → is_action a →
  legal Environment.init_allowed_actions s a = true →
  ∃ s', Environment.next_state s a = Ok s' ∧ in_bounds s'.
Proof.
  intros Hs Ha Hl. destruct s as [r c].
  destruct (in_bounds_cases _ Hs) as [Hr Hc]. simpl in Hr, Hc.
  destruct (is_action_cases _ Ha) as [-> | [-> | [-> | ->]]];
    destruct Hr as [-> | [-> | [-> | [-> | ->]]]];
    destruct Hc as [-> | [-> | [-> | [-> | ->]]]];
    vm_compute in Hl; try discriminate Hl;
    (eexists; split; [reflexivity |]);
    unfold in_bounds, Environment.height, Environment.width; simpl; lia.
Qed.

Lemma board_lookup (s : state) :
  in_bounds s → ∃ r, getitem2 Environment.init_board_rewards s.1 s.2 = Ok r.
Proof.
  intros Hs. destruct s as [r c].
  destruct (in_bounds_cases _ Hs) as [Hr Hc]. simpl in Hr, Hc.
  destruct Hr as [-> | [-> | [-> | [-> | ->]]]];
    destruct Hc as [-> | [-> | [-> | [-> | ->]]]];
    eexists; reflexivity.
Qed.

Lemma state_eqb_eq (a b : state) : Environment.state_eqb a b = true ↔ a = b.
Proof.
  destruct a as [a1 a2], b as [b1 b2]. unfold Environment.state_eqb. simpl.
  rewrite andb_true_iff, !Z.eqb_eq. split; [intros [-> ->] | intros [= -> ->]]; auto.
Qed.

Lemma contains_elem_of (l : list state) (x : state) :
  Environment.contains l x = true ↔ x ∈ l.
Proof.
  unfold Environment.contains. rewrite existsb_exists. split.
  - intros (y & Hy & E). apply state_eqb_eq in E. subst y.
    apply list_elem_of_In, Hy.
  - intros H. exists x. split; [apply list_elem_of_In, H | apply state_eqb_eq; reflexivity].
Qed.

(** Both branches of the [if] of [receive_action], once the distorted
    action is known. *)
Lemma receive_action_branches (env : Environment) (action : Z) (us : kernel_draws)
    (ra : Z) :
  env_ok env → is_action ra →
  Environment.randomized_action action us = Ok ra →
  if legal (allowed_actions env) (robot_state env) ra then
    ∃ s' reward_at,
      Environment.next_state (robot_state env) ra = Ok s' ∧ in_bounds s' ∧
      getitem2 (board_rewards env) s'.1 s'.2 = Ok reward_at ∧
      Environment.receive_action env action us
      = Ok (set_robot_state s' env,
            (s', reward_at - 1, Environment.contains (final_states env) s'))
  else
    Environment.receive_action env action us
    = Ok (env, (robot_state env, -1, false)).
Proof.
  intros (Hb & Hal & Hf & Hs) Hra Hrand.
  destruct (allowed_lookup _ _ Hs Hra) as [m Hm].
  unfold legal. rewrite Hal, Hm.
  unfold Environment.receive_action. rewrite Hrand. simpl mbind.
  rewrite Hal, Hm. simpl mbind.
  destruct (PyFloat.truthy m) eqn:Et; [| reflexivity].
  destruct (allowed_stays_in_bounds _ _ Hs Hra) as (s' & Hn & Hs').
  { unfold legal. rewrite Hm. exact Et. }
  destruct (board_lookup _ Hs') as [r Hr].
  exists s', r. rewrite Hb.
  split; [exact Hn | split; [exact Hs' | split; [exact Hr |]]].
  rewrite Hn. simpl mbind. rewrite Hr. reflexivity.
Qed.

Lemma randomized_action_is_action (action : Z) (us : kernel_draws) (ra : Z) :
  is_action action → unit_draw (draw_for action us) →
  Environment.randomized_action action us = Ok ra → is_action ra.
Proof.
  intros Ha Hu Hr.
  destruct (randomized_action_total action us Ha Hu) as (ra' & E & H).
  congruence.
Qed.

Lemma env_ok_set_robot_state (env : Environment) (s : state) :
  env_ok env → in_bounds s → env_ok (set_robot_state s env).
Proof.
  intros (Hb & Hal & Hf & _) Hs.
  split; [exact Hb | split; [exact Hal | split; [exact Hf | exact Hs]]].
Qed.

(** A call never fails on a well-formed action, and leaves the robot on
    the board. *)
Lemma receive_action_total (env : Environment) (action : Z) (us : kernel_draws) :
  env_ok env → is_action action → unit_draw (draw_for action us) →
  ∃ env' reward done,
    Environment.receive_action env action us
    = Ok (env', (robot_state env', reward, done)) ∧
    env_ok env'.
Proof.
  intros He Ha Hu.
  destruct (randomized_action_total action us Ha Hu) as (ra & Hr & Hra).
  pose proof (receive_action_branches env action us ra He Hra Hr) as H.
  destruct (legal (allowed_actions env) (robot_state env) ra).
  - destruct H as (s' & r & _ & Hs' & _ & E).
    exists (set_robot_state s' env), (r - 1), (Environment.contains (final_states env) s').
    split; [exact E | apply env_ok_set_robot_state; assumption].
  - exists env, (-1), false. split; [exact H | exact He].
Qed.

End Board.

Lemma env_ok_init : env_ok Environment.init.
Proof.
  split; [reflexivity | split; [reflexivity | split; [reflexivity |]]].
  unfold in_bounds, Environment.height, Environment.width. simpl. lia.
Qed.

Lemma unit_draw_half : unit_draw (1 # 2).
Proof. unfold unit_draw. lra. Qed.

(** C3. When the distorted action is legal from the current cell, the
    call moves the robot by that action's offset (up: row-1, left: col-1,
    down: row+1, right: col+1), returns the reward stored for the new cell
    minus one, and reports game over exactly when the new cell is one of
    the final states. *)
Theorem receive_action_legal (env : Environment) (action : Z) (us : kernel_draws)
    (ra : Z) :
  env_ok env → is_action action → unit_draw (draw_for action us) →
  Environment.randomized_action action us = Ok ra →
  legal (allowed_actions env) (robot_state env) ra = true →
  ∃ s' reward_at done,
    s' = (if ra =? 0 then ((robot_state env).1 - 1, (robot_state env).2)
          else if ra =? 1 then ((robot_state env).1, (robot_state env).2 - 1)
          else if ra =? 2 then ((robot_state env).1 + 1, (robot_state env).2)
          else ((robot_state env).1, (robot_state env).2 + 1)) ∧
    Np.getitem2 (board_rewards env) s'.1 s'.2 = Ok reward_at ∧
    (done = true ↔ s' ∈ final_states env) ∧
    Environment.receive_action env action us
    = Ok (set_robot_state s' env, (s', reward_at - 1, done)).
Proof.
  intros He Ha Hu Hr Hl.
  pose proof (randomized_action_is_action _ _ _ Ha Hu Hr) as Hra.
  pose proof (receive_action_branches env action us ra He Hra Hr) as H.
  rewrite Hl in H. destruct H as (s' & r & Hn & _ & Hrew & E).
  exists s', r, (Environment.contains (final_states env) s').
  split; [| split; [exact Hrew | split; [apply contains_elem_of | exact E]]].
  destruct (is_action_cases _ Hra) as [-> | [-> | [-> | ->]]];
    injection Hn as <-; reflexivity.
Qed.

Lemma receive_action_legal_witness :
  ∃ s' reward_at done,
    s' = (1, 0) ∧
    Np.getitem2 (board_rewards Environment.init) s'.1 s'.2 = Ok reward_at ∧
    (done = true ↔ s' ∈ final_states Environment.init) ∧
    Environment.receive_action Environment.init 2 half_draws
    = Ok (set_robot_state s' Environment.init, (s', reward_at - 1, done)).
Proof.
  apply (receive_action_legal Environment.init 2 half_draws 2).
  - exact env_ok_init.
  - unfold is_action. lia.
  - exact unit_draw_half.
  - reflexivity.
  - reflexivity.
Defined.

(** C4. When the distorted action is not legal from the current cell,
    the robot stays where it is, the reward is -1 and game over is not
    reported, whatever the cell is (a final state included). *)
Theorem receive_action_illegal (env : Environment) (action : Z) (us : kernel_draws)
    (ra : Z) :
  env_ok env → is_action action → unit_draw (draw_for action us) →
  Environment.randomized_action action us = Ok ra →
  legal (allowed_actions env) (robot_state env) ra = false →
  Environment.receive_action env action us
  = Ok (env, (robot_state env, -1, false)).
Proof.
  intros He Ha Hu Hr Hl.
  pose proof (randomized_action_is_action _ _ _ Ha Hu Hr) as Hra.
  pose proof (receive_action_branches env action us ra He Hra Hr) as H.
  rewrite Hl in H. exact H.
Qed.

(** The robot rests on the final state (1, 1) and tries to go up. *)
Lemma receive_action_illegal_witness :
  Environment.contains (final_states Environment.init) (1, 1) = true ∧
  Environment.receive_action (set_robot_state (1, 1) Environment.init) 0 half_draws
  = Ok (set_robot_state (1, 1) Environment.init, ((1, 1), -1, false)).
Proof.
  split; [reflexivity |].
  apply (receive_action_illegal (set_robot_state (1, 1) Environment.init)
           0 half_draws 0).
  - apply env_ok_set_robot_state; [exact env_ok_init |].
    unfold in_bounds, Environment.height, Environment.width. simpl. lia.
  - unfold is_action. lia.
  - exact unit_draw_half.
  - reflexivity.
  - reflexivity.
Defined.

Lemma receive_actions_total (steps : list (Z * kernel_draws)) :
  ∀ env, env_ok env → Forall step_ok steps →
    ∃ env' outs,
      receive_actions env steps = Ok (env', outs) ∧
      length outs = length steps ∧
      Forall (λ out, in_bounds out.1.1) outs ∧
      env_ok env'.
Proof.
  induction steps as [| [action us] steps IH]; intros env He Hsteps.
  - exists env, []. repeat split; try assumption; try constructor; apply He.
  - inversion Hsteps as [| ? ? [Ha Hu] Hrest]; subst. simpl in Ha, Hu.
    destruct (receive_action_total env action us He Ha Hu)
      as (env1 & r & done & E & He1).
    destruct (IH env1 He1 Hrest) as (env' & outs & E' & Hlen & Hall & He').
    exists env', ((robot_state env1, r, done) :: outs).
    simpl. rewrite E. simpl. rewrite E'. simpl.
    split; [reflexivity | split; [lia | split; [| exact He']]].
    constructor; [apply He1 | exact Hall].
Qed.

(** C5. From any cell of the board and for every sequence of actions
    (and every outcome of the draws) each call succeeds and returns a state
    on the board: the mask of [Environment()] allows no move across the
    border, and a move that is not allowed changes nothing. *)
Theorem receive_actions_in_bounds (env : Environment)
    (steps : list (Z * kernel_draws)) :
  env_ok env → Forall step_ok steps →
  (∀ s a, in_bounds s → is_action a →
          legal (allowed_actions env) s a = true →
          ∃ s', Environment.next_state s a = Ok s' ∧ in_bounds s') ∧
  ∃ env' outs,
    receive_actions env steps = Ok (env', outs) ∧
    length outs = length steps ∧
    Forall (λ out, in_bounds out.1.1) outs ∧
    in_bounds (robot_state env').
Proof.
  intros He Hsteps. split.
  - intros s a Hs Ha Hl. destruct He as (_ & Hal & _). rewrite Hal in Hl.
    exact (allowed_stays_in_bounds s a Hs Ha Hl).
  - destruct (receive_actions_total steps env He Hsteps)
      as (env' & outs & E & Hlen & Hall & He').
    exists env', outs. repeat split; try assumption; apply He'.
Qed.

Lemma receive_actions_in_bounds_witness :
  ∃ env' outs,
    receive_actions Environment.init [(2, half_draws); (0, half_draws)]
    = Ok (env', outs) ∧
    length outs = 2%nat ∧
    Forall (λ out, in_bounds out.1.1) outs ∧
    in_bounds (robot_state env').
Proof.
  apply (receive_actions_in_bounds Environment.init
           [(2, half_draws); (0, half_draws)]).
  - exact env_ok_init.
  - constructor.
    + split; [unfold is_action; simpl; lia | exact unit_draw_half].
    + constructor; [| constructor].
      split; [unfold is_action; simpl; lia | exact unit_draw_half].
Defined.

(** ** The running maximum of [max_reachable_q] *)

Section MaxReachable.

Import Np.
Variables Qt al : list (list (list pyfloat)).
Variable s : state.

Lemma gtb_asym (x y : pyfloat) :
  PyFloat.gtb x y = true → PyFloat.gtb y x = false.
Proof.
  intros H. destruct (PyFloat.gtb y x) eqn:E; [| reflexivity].
  pose proof (gtb_trans _ _ _ H E) as F. rewrite gtb_irrefl in F. discriminate.
Qed.

Lemma gtb_false_trans (q v m : pyfloat) :
  PyFloat.gtb q m = false → PyFloat.gtb v m = true → PyFloat.gtb q v = false.
Proof.
  intros H1 H2. destruct (PyFloat.gtb q v) eqn:E; [| reflexivity].
  pose proof (gtb_trans _ _ _ E H2). congruence.
Qed.

Lemma max_reachable_q_loop_cons (m : pyfloat) (a : Z) (rest : list Z) :
  Robot.max_reachable_q_loop Qt al s m (a :: rest)
  = (allowed ← getitem3 al s.1 s.2 a;
     if PyFloat.truthy allowed then
       q ← getitem3 Qt s.1 s.2 a;
       if PyFloat.gtb q m then
         q' ← getitem3 Qt s.1 s.2 a;
         Robot.max_reachable_q_loop Qt al s q' rest
       else Robot.max_reachable_q_loop Qt al s m rest
     else Robot.max_reachable_q_loop Qt al s m rest).
Proof. reflexivity. Qed.

(** The loop returns a value that no legal action of the list exceeds and
    that is either the initial value or the entry of a legal action. *)
Lemma max_reachable_q_loop_spec (acts : list Z) :
  ∀ m,
    (∀ a, a ∈ acts → ∃ x q, getitem3 al s.1 s.2 a = Ok x ∧
                            getitem3 Qt s.1 s.2 a = Ok q) →
    ∃ v, Robot.max_reachable_q_loop Qt al s m acts = Ok v ∧
         (v = m ∨ PyFloat.gtb v m = true) ∧
         (v = m ∨ ∃ a, a ∈ acts ∧ legal al s a = true ∧
                       getitem3 Qt s.1 s.2 a = Ok v) ∧
         (∀ a q, a ∈ acts → legal al s a = true →
                 getitem3 Qt s.1 s.2 a = Ok q → PyFloat.gtb q v = false).
Proof.
  induction acts as [| a rest IH]; intros m Hdef.
  - exists m. simpl. repeat split; auto.
    intros a q Ha. apply elem_of_nil in Ha. contradiction.
  - destruct (Hdef a) as (x & q & Hx & Hq); [apply elem_of_cons; auto |].
    assert (Hrest : ∀ a', a' ∈ rest →
              ∃ x' q', getitem3 al s.1 s.2 a' = Ok x' ∧
                       getitem3 Qt s.1 s.2 a' = Ok q').
    { intros a' Ha'. apply Hdef, elem_of_cons. auto. }
    assert (Hlegal : legal al s a = PyFloat.truthy x)
      by (unfold legal; rewrite Hx; reflexivity).
    rewrite max_reachable_q_loop_cons, Hx, bind_Ok.
    destruct (PyFloat.truthy x) eqn:Et.
    + rewrite Hq, bind_Ok. destruct (PyFloat.gtb q m) eqn:Eg.
      * rewrite bind_Ok.
        destruct (IH q Hrest) as (v & Ev & Hge & Hin & Hub).
        exists v. split; [exact Ev |]. split; [| split].
        -- right. destruct Hge as [-> | Hge]; [exact Eg |].
           exact (gtb_trans _ _ _ Hge Eg).
        -- right. destruct Hin as [-> | (a' & Ha' & Hl & Hv)].
           ++ exists a. rewrite Hlegal. repeat split; auto.
              apply elem_of_cons. auto.
           ++ exists a'. repeat split; auto. apply elem_of_cons. auto.
        -- intros a0 q0 Ha0 Hl0 Hq0. apply elem_of_cons in Ha0 as [-> | Ha0].
           ++ assert (q0 = q) by congruence. subst q0.
              destruct Hge as [-> | Hge]; [apply gtb_irrefl | apply gtb_asym, Hge].
           ++ exact (Hub a0 q0 Ha0 Hl0 Hq0).
      * destruct (IH m Hrest) as (v & Ev & Hge & Hin & Hub).
        exists v. split; [exact Ev |]. split; [exact Hge | split].
        -- destruct Hin as [-> | (a' & Ha' & Hl & Hv)]; [left; reflexivity |].
           right. exists a'. repeat split; auto. apply elem_of_cons. auto.
        -- intros a0 q0 Ha0 Hl0 Hq0. apply elem_of_cons in Ha0 as [-> | Ha0].
           ++ assert (q0 = q) by congruence. subst q0.
              destruct Hge as [-> | Hge]; [exact Eg |].
              exact (gtb_false_trans _ _ _ Eg Hge).
           ++ exact (Hub a0 q0 Ha0 Hl0 Hq0).
    + destruct (IH m Hrest) as (v & Ev & Hge & Hin & Hub).
      exists v. split; [exact Ev |]. split; [exact Hge | split].
      * destruct Hin as [-> | (a' & Ha' & Hl & Hv)]; [left; reflexivity |].
        right. exists a'. repeat split; auto. apply elem_of_cons. auto.
      * intros a0 q0 Ha0 Hl0 Hq0. apply elem_of_cons in Ha0 as [-> | Ha0].
        -- congruence.
        -- exact (Hub a0 q0 Ha0 Hl0 Hq0).
Qed.

(** Without a legal action in the list the initial value comes back, and
    the table is not even read. *)
Lemma max_reachable_q_loop_none_legal (acts : list Z) (m : pyfloat) :
  (∀ a, a ∈ acts → ∃ x, getitem3 al s.1 s.2 a = Ok x ∧ PyFloat.truthy x = false) →
  Robot.max_reachable_q_loop Qt al s m acts = Ok m.
Proof.
  induction acts as [| a rest IH]; intros H; [reflexivity |].
  destruct (H a) as (x & Hx & Et); [apply elem_of_cons; auto |].
  rewrite max_reachable_q_loop_cons, Hx, bind_Ok, Et. apply IH.
  intros a' Ha'. apply H, elem_of_cons. auto.
Qed.

End MaxReachable.

(** Every cell of the board of [Environment()] has a legal action. *)
Lemma some_action_legal (s : state) :
  in_bounds s →
  ∃ a, is_action a ∧ legal Environment.init_allowed_actions s a = true.
Proof.
  intros Hs. destruct s as [r c].
  destruct (in_bounds_cases _ Hs) as [Hr Hc]. simpl in Hr, Hc.
  destruct Hr as [-> | [-> | [-> | [-> | ->]]]];
    destruct Hc as [-> | [-> | [-> | [-> | ->]]]];
    first [ exists 0; split; [unfold is_action; lia | reflexivity]
          | exists 1; split; [unfold is_action; lia | reflexivity]
          | exists 2; split; [unfold is_action; lia | reflexivity]
          | exists 3; split; [unfold is_action; lia | reflexivity] ].
Qed.

(** C9, as stated, fails: on a mask without any legal action from (0, 0)
    the computation of the bootstrap value raises nothing and returns
    [-inf]. *)
Lemma max_reachable_q_no_legal_action_returns :
  (∀ a, a ∈ actions Robot.init_default → legal blocked_mask (0, 0) a = false) ∧
  Robot.max_reachable_q Robot.init_default (0, 0) blocked_mask = Ok NInf ∧
  ¬ ∃ e, Robot.max_reachable_q Robot.init_default (0, 0) blocked_mask = Raise e.
Proof.
  split; [| split].
  - intros a Ha. simpl in Ha.
    repeat (apply elem_of_cons in Ha as [-> | Ha]; [reflexivity |]).
    apply elem_of_nil in Ha. contradiction.
  - reflexivity.
  - intros [e He]. vm_compute in He. discriminate He.
Qed.

(** C9, amended. When the mask marks no action of the robot legal from
    the state, the computation of the bootstrap value does not fail: it
    returns [-inf], the initial value of the running maximum. *)
Theorem max_reachable_q_without_legal_action (self : Robot) (s : state)
    (allowed_actions : list (list (list pyfloat))) :
  (∀ a, a ∈ actions self →
        ∃ x, Np.getitem3 allowed_actions s.1 s.2 a = Ok x ∧
             PyFloat.truthy x = false) →
  Robot.max_reachable_q self s allowed_actions = Ok NInf.
Proof.
  intros H. unfold Robot.max_reachable_q.
  apply max_reachable_q_loop_none_legal. exact H.
Qed.

Lemma max_reachable_q_without_legal_action_witness :
  Robot.max_reachable_q Robot.init_default (4, 4) blocked_mask = Ok NInf.
Proof.
  apply (max_reachable_q_without_legal_action Robot.init_default (4, 4) blocked_mask).
  intros a Ha. simpl in Ha.
  repeat (apply elem_of_cons in Ha as [-> | Ha];
          [exists (Fin 0); split; reflexivity |]).
  apply elem_of_nil in Ha. contradiction.
Defined.

(** ** [np.argmax] on finite values *)

Section Argmax.

Import Np.

Lemma leb_refl_finite (x : pyfloat) : is_finite x → PyFloat.leb x x = true.
Proof. intros [a ->]. apply leb_Fin, Qle_refl. Qed.

Lemma leb_false_gtb (x y : pyfloat) :
  is_finite x → is_finite y → PyFloat.leb x y = false → PyFloat.gtb x y = true.
Proof. intros [a ->] [b ->]. simpl. intros ->. reflexivity. Qed.

Lemma leb_gtb_trans (y mp x : pyfloat) :
  is_finite y → is_finite mp → is_finite x →
  PyFloat.leb y mp = true → PyFloat.gtb x mp = true →
  PyFloat.leb y x = true ∧ PyFloat.gtb x y = true.
Proof.
  intros [a ->] [b ->] [c ->]. rewrite !leb_Fin, !gtb_Fin. intros H1 H2.
  split; [apply Qlt_le_weak |]; eapply Qle_lt_trans; eassumption.
Qed.

Lemma argmax_scan_spec (xs : list pyfloat) :
  ∀ (pre : list pyfloat) (mp : pyfloat) (best : nat),
    Forall is_finite (pre ++ xs) →
    pre !! best = Some mp →
    (∀ j x, pre !! j = Some x →
            PyFloat.leb x mp = true ∧ ((j < best)%nat → PyFloat.gtb mp x = true)) →
    ∃ m, (pre ++ xs) !! argmax_scan mp best (length pre) xs = Some m ∧
         ∀ j x, (pre ++ xs) !! j = Some x →
                PyFloat.leb x m = true ∧
                ((j < argmax_scan mp best (length pre) xs)%nat →
                 PyFloat.gtb m x = true).
Proof.
  induction xs as [| x xs IH]; intros pre mp best Hfin Hbest Hinv.
  - simpl. rewrite app_nil_r. exists mp. split; [exact Hbest | exact Hinv].
  - pose proof (lookup_lt_Some _ _ _ Hbest) as Hlt.
    assert (Hmp : is_finite mp).
    { apply (Forall_lookup_1 _ _ best _ Hfin). rewrite lookup_app_l by lia.
      exact Hbest. }
    assert (Hx : is_finite x).
    { apply (Forall_lookup_1 _ _ (length pre) _ Hfin).
      rewrite lookup_app_r by lia. rewrite Nat.sub_diag. reflexivity. }
    assert (Hpre : Forall is_finite pre) by (apply Forall_app in Hfin; tauto).
    assert (Hlen : length (pre ++ [x]) = S (length pre))
      by (rewrite length_app; simpl; lia).
    assert (Happ : (pre ++ [x]) ++ xs = pre ++ x :: xs)
      by (rewrite <- app_assoc; reflexivity).
    simpl. destruct Hmp as [b Hb]. rewrite Hb. simpl PyFloat.isnan. cbv iota.
    rewrite <- Hb. assert (Hmp : is_finite mp) by (exists b; exact Hb).
    destruct (PyFloat.leb x mp) eqn:El; simpl negb; cbv iota.
    + specialize (IH (pre ++ [x]) mp best).
      rewrite Hlen, Happ in IH. apply IH; [exact Hfin | |].
      * rewrite lookup_app_l by lia. exact Hbest.
      * intros j y Hy. destruct (decide (j < length pre)%nat) as [Hj | Hj].
        -- rewrite lookup_app_l in Hy by lia. exact (Hinv j y Hy).
        -- rewrite lookup_app_r in Hy by lia.
           destruct (j - length pre)%nat eqn:Ej; simpl in Hy; [| discriminate].
           injection Hy as <-. split; [exact El | lia].
    + pose proof (leb_false_gtb x mp Hx Hmp El) as Hg.
      specialize (IH (pre ++ [x]) x (length pre)).
      rewrite Hlen, Happ in IH. apply IH; [exact Hfin | |].
      * rewrite lookup_app_r by lia. rewrite Nat.sub_diag. reflexivity.
      * intros j y Hy. destruct (decide (j < length pre)%nat) as [Hj | Hj].
        -- rewrite lookup_app_l in Hy by lia.
           assert (Hfy : is_finite y) by exact (Forall_lookup_1 _ _ _ _ Hpre Hy).
           destruct (Hinv j y Hy) as [Hle _].
           destruct (leb_gtb_trans y mp x Hfy Hmp Hx Hle Hg) as [H1 H2].
           split; [exact H1 | intros _; exact H2].
        -- rewrite lookup_app_r in Hy by lia.
           destruct (j - length pre)%nat eqn:Ej; simpl in Hy; [| discriminate].
           injection Hy as <-. split; [apply leb_refl_finite, Hx | lia].
Qed.

(** The index returned holds a value that no entry exceeds and that every
    earlier entry is strictly below. *)
Lemma argmax_spec (row : list pyfloat) :
  row ≠ [] → Forall is_finite row →
  ∃ a m, argmax row = Ok a ∧ 0 <= a < Z.of_nat (length row) ∧
         row !! Z.to_nat a = Some m ∧
         ∀ j x, row !! j = Some x →
                PyFloat.leb x m = true ∧
                ((j < Z.to_nat a)%nat → PyFloat.gtb m x = true).
Proof.
  intros Hne Hfin. destruct row as [| x xs]; [contradiction |].
  destruct (argmax_scan_spec xs [x] x 0%nat) as (m & Hm & Hall).
  - exact Hfin.
  - reflexivity.
  - intros j y Hy. destruct j; simpl in Hy; [| discriminate].
    injection Hy as <-. split; [| lia].
    apply leb_refl_finite. inversion Hfin; assumption.
  - simpl length in Hm, Hall. change ([x] ++ xs) with (x :: xs) in Hm, Hall.
    exists (Z.of_nat (argmax_scan x 0 1 xs)), m.
    rewrite Nat2Z.id. split; [reflexivity |].
    split; [| split; [exact Hm | exact Hall]].
    pose proof (lookup_lt_Some _ _ _ Hm). lia.
Qed.

End Argmax.

(** ** The epsilon-greedy choice *)

Section Choose.

Import Np.

Lemma take_best_p (e : Q) :
  finite_p [PyFloat.sub (PyFloat.of_Z 1) (Fin e); Fin e] = Ok [(1 + - e)%Q; e].
Proof. reflexivity. Qed.

Lemma take_best_p_valid (e : Q) :
  (0 <= e <= 1)%Q → valid_p 2 [(1 + - e)%Q; e] = true.
Proof.
  intros He. apply valid_p_spec. split; [reflexivity |]. split.
  - repeat constructor; lra.
  - simpl. lra.
Qed.

(** The greedy branch is taken exactly on the samples below [1 - epsilon],
    the exploring one on the samples from [1 - epsilon] on. *)
Lemma choose_action_exploit (self : Robot) (s : state) (d : step_draws) (e : Q) :
  epsilon self = Fin e → (0 <= e <= 1)%Q →
  (0 <= d_take_best d < 1 - e)%Q →
  Robot.choose_action self s d = (row ← Robot.Q_row self s; argmax row).
Proof.
  intros Heps He Hu. unfold Robot.choose_action.
  rewrite Heps, take_best_p, bind_Ok.
  assert (E : random_choice 2 [(1 + - e)%Q; e] (d_take_best d) = Ok 0).
  { apply random_choice_spec; [apply take_best_p_valid, He | lra |].
    split; [lia |]. simpl. lra. }
  rewrite E, bind_Ok. reflexivity.
Qed.

Lemma choose_action_explore (self : Robot) (s : state) (d : step_draws) (e : Q) :
  epsilon self = Fin e → (0 <= e <= 1)%Q →
  (1 - e <= d_take_best d < 1)%Q →
  Robot.choose_action self s d = random_integers 0 3 (d_random_words d).
Proof.
  intros Heps He Hu. unfold Robot.choose_action.
  rewrite Heps, take_best_p, bind_Ok.
  assert (E : random_choice 2 [(1 + - e)%Q; e] (d_take_best d) = Ok 1).
  { apply random_choice_spec; [apply take_best_p_valid, He | lra |].
    split; [lia |]. simpl. lra. }
  rewrite E, bind_Ok. reflexivity.
Qed.

(** [random_integers(0, 3)]: the mask is 3, no word is rejected, and the
    result is the two low bits of the first word. *)
Lemma random_integers_0_3 (w : Z) (ws : list Z) :
  random_integers 0 3 (w :: ws) = Ok (w mod 4).
Proof.
  unfold random_integers. cbn [bounded_masked].
  change (3 <? 0) with false. change (3 - 0) with 3.
  change (3 =? 0) with false. change (interval_mask 3) with (Z.ones 2).
  cbv iota. rewrite Z.land_ones by lia. change (2 ^ 2) with 4.
  pose proof (Z.mod_pos_bound w 4 ltac:(lia)) as Hb.
  destruct (Z.ltb_spec 3 (w mod 4)); [lia |]. reflexivity.
Qed.

Lemma is_action_mod_4 (w : Z) : is_action (w mod 4).
Proof.
  pose proof (Z.mod_pos_bound w 4 ltac:(lia)). unfold is_action. lia.
Qed.

(** The row [Q_table[row, col, :]] of a cell of the board. *)
Lemma Q_row_ok (self : Robot) (s : state) :
  robot_ok self → in_bounds s →
  ∃ row, Robot.Q_row self s = Ok row ∧ length row = 4%nat ∧
         Forall is_finite row ∧
         ∀ k, getitem3 (Q_table self) s.1 s.2 k = getitem row k.
Proof.
  intros (_ & Hshape & Hfin & _) [Hr Hc].
  unfold Environment.height, Environment.width in *.
  destruct (getitem_in_range (Q_table self) s.1) as (plane & Hp & Ep);
    [destruct Hshape as [-> _]; lia |].
  destruct (Forall_lookup_1 _ _ _ _ (proj2 Hshape) Hp) as [Hw Hrows].
  destruct (getitem_in_range plane s.2) as (row & Hrow & Erow); [lia |].
  exists row. unfold Robot.Q_row, getitem3. rewrite Ep, bind_Ok, Erow.
  split; [reflexivity |]. split; [| split].
  - exact (Forall_lookup_1 _ _ _ _ Hrows Hrow).
  - pose proof (Forall_lookup_1 _ _ _ _ Hfin Hp) as Hfp.
    exact (Forall_lookup_1 _ _ _ _ Hfp Hrow).
  - intros k. rewrite bind_Ok, Erow. reflexivity.
Qed.

Lemma choose_action_is_action (self : Robot) (s : state) (d : step_draws) :
  robot_ok self → in_bounds s → step_draws_ok d →
  ∃ action, Robot.choose_action self s d = Ok action ∧ is_action action.
Proof.
  intros Hok Hs (Hu & (Hne & _) & _).
  pose proof Hok as (_ & _ & _ & _ & _ & e & Heps & He).
  destruct (Qlt_le_dec (d_take_best d) (1 - e)) as [Hlt | Hge].
  - rewrite (choose_action_exploit self s d e Heps He)
      by (unfold unit_draw in Hu; lra).
    destruct (Q_row_ok self s Hok Hs) as (row & Erow & Hlen & Hfin & _).
    rewrite Erow, bind_Ok.
    destruct (argmax_spec row) as (a & m & Ea & Ha & _);
      [intros ->; discriminate Hlen | exact Hfin |].
    exists a. split; [exact Ea |]. unfold is_action. lia.
  - rewrite (choose_action_explore self s d e Heps He)
      by (unfold unit_draw in Hu; lra).
    destruct (d_random_words d) as [| w ws]; [contradiction |].
    exists (w mod 4). split; [apply random_integers_0_3 | apply is_action_mod_4].
Qed.

End Choose.

(** ** One call of [update_bot] *)

Section UpdateBot.

Import Np.

Lemma getitem_elem_of {A} (arr : list A) (i : Z) (x : A) :
  getitem arr i = Ok x → x ∈ arr.
Proof.
  unfold getitem. intros H. apply bind_Ok_inv in H as (k & _ & H).
  destruct (arr !! k) eqn:E; [| discriminate].
  injection H as <-. exact (list_elem_of_lookup_2 _ _ _ E).
Qed.

Lemma setitem_Forall {A} (P : A → Prop) (arr arr' : list A) (i : Z) (x : A) :
  setitem arr i x = Ok arr' → Forall P arr → P x → Forall P arr'.
Proof.
  unfold setitem. intros H Harr Hx. apply bind_Ok_inv in H as (k & _ & H).
  injection H as <-. apply Forall_insert; assumption.
Qed.

Lemma setitem3_Forall {A} (P : A → Prop) (t t' : list (list (list A)))
    (i j k : Z) (x : A) :
  setitem3 t i j k x = Ok t' →
  Forall (Forall (Forall P)) t → P x → Forall (Forall (Forall P)) t'.
Proof.
  unfold setitem3. intros H Ht Hx.
  apply bind_Ok_inv in H as (plane & Hp & H).
  apply bind_Ok_inv in H as (row & Hr & H).
  apply bind_Ok_inv in H as (row' & Hr' & H).
  apply bind_Ok_inv in H as (plane' & Hp' & H).
  assert (Hplane : Forall (Forall P) plane).
  { rewrite Forall_forall in Ht. apply Ht, getitem_elem_of with i, Hp. }
  assert (Hrow : Forall P row).
  { rewrite Forall_forall in Hplane. apply Hplane, getitem_elem_of with j, Hr. }
  eapply setitem_Forall; [exact H | exact Ht |].
  eapply setitem_Forall; [exact Hp' | exact Hplane |].
  eapply setitem_Forall; [exact Hr' | exact Hrow | exact Hx].
Qed.

Lemma Q_lookup (self : Robot) (s : state) (a : Z) :
  robot_ok self → in_bounds s → is_action a →
  ∃ q, getitem3 (Q_table self) s.1 s.2 a = Ok (Fin q).
Proof.
  intros (_ & Hshape & Hfin & _) [Hr Hc] Ha.
  unfold Environment.height, Environment.width, is_action in *.
  destruct (getitem3_in_range 5 5 4 _ s.1 s.2 a Hshape)
    as (plane & row & x & Hp & Hrow & Hx & E); try lia.
  pose proof (Forall_lookup_1 _ _ _ _ Hfin Hp) as H1.
  pose proof (Forall_lookup_1 _ _ _ _ H1 Hrow) as H2.
  destruct (Forall_lookup_1 _ _ _ _ H2 Hx) as [q ->].
  exists q. exact E.
Qed.

Lemma elem_of_actions (a : Z) : a ∈ [0; 1; 2; 3] ↔ is_action a.
Proof.
  unfold is_action. rewrite !elem_of_cons, elem_of_nil. lia.
Qed.

(** On the board of [Environment()] and a finite table the bootstrap value
    is the entry of a legal action that no legal action exceeds. *)
Lemma max_reachable_q_ok (self : Robot) (s : state) :
  robot_ok self → in_bounds s →
  ∃ v, Robot.max_reachable_q self s Environment.init_allowed_actions = Ok v ∧
       is_finite v ∧
       (∃ a, is_action a ∧
             legal Environment.init_allowed_actions s a = true ∧
             getitem3 (Q_table self) s.1 s.2 a = Ok v) ∧
       (∀ a q, is_action a →
               legal Environment.init_allowed_actions s a = true →
               getitem3 (Q_table self) s.1 s.2 a = Ok q →
               PyFloat.leb q v = true).
Proof.
  intros Hok Hs. pose proof Hok as (Hacts & _).
  unfold Robot.max_reachable_q. rewrite Hacts.
  destruct (max_reachable_q_loop_spec (Q_table self)
              Environment.init_allowed_actions s [0; 1; 2; 3] NInf)
    as (v & Ev & _ & Hin & Hub).
  { intros a Ha. apply elem_of_actions in Ha.
    destruct (allowed_lookup s a Hs Ha) as [x Hx].
    destruct (Q_lookup self s a Hok Hs Ha) as [q Hq]. eauto. }
  destruct (some_action_legal s Hs) as (a0 & Ha0 & Hl0).
  destruct (Q_lookup self s a0 Hok Hs Ha0) as [q0 Hq0].
  pose proof (Hub a0 (Fin q0) (proj2 (elem_of_actions a0) Ha0) Hl0 Hq0) as Hb0.
  destruct Hin as [-> | (a & Ha & Hl & Hv)]; [discriminate Hb0 |].
  apply elem_of_actions in Ha.
  destruct (Q_lookup self s a Hok Hs Ha) as [qv Hqv].
  assert (v = Fin qv) by congruence. subst v.
  exists (Fin qv). split; [exact Ev |]. split; [exists qv; reflexivity |].
  split; [exists a; auto |].
  intros b q Hb Hlb Hq.
  destruct (Q_lookup self s b Hok Hs Hb) as [qb Hqb].
  assert (q = Fin qb) by congruence. subst q.
  pose proof (Hub b (Fin qb) (proj2 (elem_of_actions b) Hb) Hlb Hq) as Hle.
  apply gtb_Fin_false in Hle. apply leb_Fin. exact Hle.
Qed.

Lemma backup_finite (self : Robot) (old v old' : pyfloat) (r : Z) :
  is_finite (alpha self) → is_finite (gamma self) →
  is_finite old → is_finite v → is_finite old' →
  is_finite (Robot.backup self old r v old').
Proof.
  intros [a Ha] [g Hg] [o ->] [q ->] [o' ->]. unfold Robot.backup.
  rewrite Ha, Hg. simpl. eexists. reflexivity.
Qed.

End UpdateBot.

Section UpdateBotStep.

Import Np.

Lemma draw_for_ok (action : Z) (us : kernel_draws) :
  kernel_draws_ok us → unit_draw (draw_for action us).
Proof.
  intros (H0 & H1 & H2 & H3). unfold draw_for.
  destruct action as [| [[| |] | [| |] |] |]; assumption.
Qed.

Lemma max_reachable_q_set_outcome (self : Robot) (done : bool) (r : Z) (s : state)
    (al : list (list (list pyfloat))) :
  Robot.max_reachable_q (Robot.set_outcome done r self) s al
  = Robot.max_reachable_q self s al.
Proof. reflexivity. Qed.

Lemma backup_set_outcome (self : Robot) (done : bool) (r r' : Z) (old v old' : pyfloat) :
  Robot.backup (Robot.set_outcome done r self) old r' v old'
  = Robot.backup self old r' v old'.
Proof. reflexivity. Qed.

(** [update_bot] written out on a well-formed robot, board and draws:
    no call inside it fails. *)
Lemma update_bot_spec (self : Robot) (env : Environment) (d : step_draws) :
  robot_ok self → env_ok env → step_draws_ok d →
  ∃ action env' reward done old v t,
    Robot.choose_action self (robot_state env) d = Ok action ∧
    is_action action ∧
    Environment.receive_action env action (d_kernel d)
    = Ok (env', (robot_state env', reward, done)) ∧
    env_ok env' ∧
    getitem3 (Q_table self) (robot_state env).1 (robot_state env).2 action = Ok old ∧
    Robot.max_reachable_q self (robot_state env') (allowed_actions env') = Ok v ∧
    is_finite v ∧
    setitem3 (Q_table self) (robot_state env).1 (robot_state env).2 action
      (Robot.backup self old reward v old) = Ok t ∧
    Robot.update_bot self env d
    = Ok (Robot.set_Q_table t (Robot.set_outcome done reward self), env') ∧
    robot_ok (Robot.set_Q_table t (Robot.set_outcome done reward self)).
Proof.
  intros Hok He Hd. pose proof He as (_ & _ & _ & Hs).
  pose proof Hd as (_ & _ & Hk).
  destruct (choose_action_is_action self (robot_state env) d Hok Hs Hd)
    as (action & Ea & Ha).
  destruct (receive_action_total env action (d_kernel d) He Ha
              (draw_for_ok action _ Hk)) as (env' & reward & done & Er & He').
  pose proof He' as (_ & Hal' & _ & Hs').
  destruct (Q_lookup self (robot_state env) action Hok Hs Ha) as [old Hold].
  destruct (max_reachable_q_ok self (robot_state env') Hok Hs')
    as (v & Ev & Hv & _).
  pose proof Hok as (Hacts & Hshape & Hfin & Halpha & Hgamma & Heps).
  destruct (setitem3_in_range 5 5 4 (Q_table self) (robot_state env).1
              (robot_state env).2 action
              (Robot.backup self (Fin old) reward v (Fin old)) Hshape)
    as (t & Et & Hshape' & _);
    [apply Hs | apply Hs | unfold is_action in Ha; lia |].
  exists action, env', reward, done, (Fin old), v, t.
  rewrite Hal'.
  split; [exact Ea |]. split; [exact Ha |]. split; [exact Er |].
  split; [exact He' |]. split; [exact Hold |]. split; [exact Ev |].
  split; [exact Hv |]. split; [exact Et |]. split.
  - unfold Robot.update_bot. rewrite Ea, bind_Ok, Er, bind_Ok.
    cbv beta iota zeta.
    change (Q_table (Robot.set_outcome done reward self)) with (Q_table self).
    rewrite Hold, bind_Ok, max_reachable_q_set_outcome, Hal', Ev, bind_Ok.
    rewrite bind_Ok, backup_set_outcome, Et, bind_Ok. reflexivity.
  - split; [exact Hacts |]. split; [exact Hshape' |]. split; [| auto].
    apply (setitem3_Forall is_finite _ _ _ _ _ _ Et Hfin).
    apply backup_finite; try assumption; exists old; reflexivity.
Qed.

End UpdateBotStep.

Lemma robot_ok_init_default : robot_ok Robot.init_default.
Proof.
  split; [reflexivity |]. split; [split; [reflexivity | repeat constructor] |].
  split; [repeat constructor; eexists; reflexivity |].
  split; [eexists; reflexivity |]. split; [eexists; reflexivity |].
  exists 1%Q. split; [reflexivity | lra].
Qed.

Lemma robot_ok_restart_init_default : robot_ok (Robot.restart Robot.init_default).
Proof.
  split; [reflexivity |]. split; [split; [reflexivity | repeat constructor] |].
  split; [repeat constructor; eexists; reflexivity |].
  split; [eexists; reflexivity |]. split; [eexists; reflexivity |].
  exists (1999 # 2000)%Q. split; [reflexivity | lra].
Qed.

Lemma kernel_draws_ok_half : kernel_draws_ok half_draws.
Proof. repeat split; simpl; lra. Qed.

Lemma step_draws_ok_explore (action : Z) :
  is_action action → step_draws_ok (explore_draws action).
Proof.
  intros Ha. split; [exact unit_draw_half |].
  split; [| exact kernel_draws_ok_half].
  split; [discriminate |]. repeat constructor; unfold is_action in Ha; lia.
Qed.

Lemma right_right_down_ok : Forall step_draws_ok right_right_down.
Proof.
  repeat (constructor; [apply step_draws_ok_explore; unfold is_action; lia |]).
  constructor.
Qed.

Lemma down_up_ok : Forall step_draws_ok down_up.
Proof.
  repeat (constructor; [apply step_draws_ok_explore; unfold is_action; lia |]).
  constructor.
Qed.

(** C6. On the greedy branch (the sample of [take_best_action] below
    [1 - epsilon]) the chosen action holds the largest entry of the current
    state's row, and every action before it in the order 0 (up), 1 (left),
    2 (down), 3 (right) holds a strictly smaller one. *)
Theorem greedy_choice_first_maximum (self : Robot) (s : state) (d : step_draws)
    (e : Q) :
  robot_ok self → in_bounds s → epsilon self = Fin e →
  (0 <= d_take_best d < 1 - e)%Q →
  ∃ action best,
    Robot.choose_action self s d = Ok action ∧
    is_action action ∧
    Np.getitem3 (Q_table self) s.1 s.2 action = Ok best ∧
    ∀ b q, is_action b → Np.getitem3 (Q_table self) s.1 s.2 b = Ok q →
           PyFloat.leb q best = true ∧
           (b < action → PyFloat.gtb best q = true).
Proof.
  intros Hok Hs Heps Hu.
  pose proof Hok as (_ & _ & _ & _ & _ & e' & Heps' & He).
  assert (e' = e) by congruence. subst e'.
  rewrite (choose_action_exploit self s d e Heps He Hu).
  destruct (Q_row_ok self s Hok Hs) as (row & Erow & Hlen & Hfin & Hget).
  rewrite Erow, bind_Ok.
  destruct (argmax_spec row) as (a & m & Ea & Ha & Hm & Hall);
    [intros ->; discriminate Hlen | exact Hfin |].
  exists a, m. split; [exact Ea |]. split; [unfold is_action; lia |].
  split; [rewrite Hget; apply getitem_lookup; [lia | exact Hm] |].
  intros b q Hb Hq. rewrite Hget in Hq.
  destruct (getitem_in_range row b) as (x & Hx & Ex);
    [unfold is_action in Hb; lia |].
  assert (x = q) by congruence. subst x.
  destruct (Hall _ _ Hx) as [Hle Hlt]. split; [exact Hle |].
  intros Hba. apply Hlt. unfold is_action in Hb. lia.
Qed.

Lemma greedy_choice_first_maximum_witness :
  ∃ action best,
    Robot.choose_action (Robot.restart Robot.init_default) (0, 0) greedy_draws
    = Ok action ∧
    is_action action ∧
    Np.getitem3 (Q_table (Robot.restart Robot.init_default)) 0 0 action = Ok best ∧
    ∀ b q, is_action b →
           Np.getitem3 (Q_table (Robot.restart Robot.init_default)) 0 0 b = Ok q →
           PyFloat.leb q best = true ∧
           (b < action → PyFloat.gtb best q = true).
Proof.
  apply (greedy_choice_first_maximum (Robot.restart Robot.init_default) (0, 0)
           greedy_draws (1999 # 2000)).
  - exact robot_ok_restart_init_default.
  - apply env_ok_init.
  - reflexivity.
  - simpl. lra.
Defined.

(** C7. The exploring branch is taken exactly when the sample of
    [take_best_action] is at or above [1 - epsilon] (an interval of length
    [epsilon]; below it the greedy branch is).  The action is then
    [random_integers(0, 3)]: the two low bits of the generator's word, so
    each of the four actions is chosen on exactly the 2^30 of the 2^32 words
    [4 * q + action].  The mask is not consulted: an action that is not
    legal from the current state is submitted like any other; the robot
    stays, the reward is -1 and the simulation goes on. *)
Theorem explore_choice_unfiltered (self : Robot) (env : Environment)
    (d : step_draws) (e : Q) (w : Z) (ws : list Z) :
  robot_ok self → env_ok env → step_draws_ok d →
  epsilon self = Fin e → d_random_words d = w :: ws →
  ((d_take_best d < 1 - e)%Q →
   Robot.choose_action self (robot_state env) d
   = (row ← Robot.Q_row self (robot_state env); Np.argmax row)) ∧
  ((1 - e <= d_take_best d)%Q →
   Robot.choose_action self (robot_state env) d
   = Np.random_integers 0 3 (d_random_words d) ∧
   (∀ k, Robot.choose_action self (robot_state env) d = Ok k ↔
         is_action k ∧ ∃ q, 0 <= q < 2 ^ 30 ∧ w = 4 * q + k) ∧
   (∀ k, Robot.choose_action self (robot_state env) d = Ok k →
         legal (allowed_actions env) (robot_state env) k = false →
         Environment.randomized_action k (d_kernel d) = Ok k →
         ∃ self', Robot.update_bot self env d = Ok (self', env) ∧
                  game_over self' = false ∧
                  total_reward self' = total_reward self - 1)).
Proof.
  intros Hok He Hd Heps Hw.
  pose proof Hok as (_ & _ & _ & _ & _ & e' & Heps' & Hrange).
  assert (e' = e) by congruence. subst e'.
  pose proof Hd as (Hunit & (_ & Hwords) & Hk).
  rewrite Hw in Hwords. inversion Hwords as [| ? ? Hword _]; subst.
  unfold is_word in Hword. unfold unit_draw in Hunit.
  split.
  - intros Hu. apply (choose_action_exploit self _ d e Heps Hrange). lra.
  - intros Hu.
    assert (Ec : Robot.choose_action self (robot_state env) d
                 = Np.random_integers 0 3 (d_random_words d)).
    { apply (choose_action_explore self _ d e Heps Hrange). lra. }
    split; [exact Ec |]. rewrite Ec, Hw, random_integers_0_3.
    split.
    + intros k. split.
      * intros [= <-]. split; [apply is_action_mod_4 |].
        exists (w / 4). split.
        -- split; [apply Z.div_pos; lia |].
           apply Z.div_lt_upper_bound; lia.
        -- apply Z.div_mod. lia.
      * intros (Hk4 & q & Hq & ->). f_equal. unfold is_action in Hk4.
        rewrite Z.add_comm, Z.mul_comm, Z.mod_add by lia.
        apply Z.mod_small. lia.
    + intros k [= <-] Hl Hrand.
      destruct (update_bot_spec self env d Hok He Hd)
        as (action & env' & reward & done & old & v & t &
            Ea & _ & Er & _ & _ & _ & _ & _ & Eu & _).
      rewrite Ec, Hw, random_integers_0_3 in Ea. injection Ea as <-.
      pose proof (receive_action_branches env _ (d_kernel d) _ He
                    (is_action_mod_4 w) Hrand) as Hb.
      rewrite Hl in Hb. rewrite Hb in Er.
      assert (env' = env ∧ reward = -1 ∧ done = false) as (-> & -> & ->)
        by (injection Er; auto).
      eexists. split; [exact Eu |]. split; [reflexivity |]. simpl. lia.
Qed.

(** Exploring with the word 0, "up", from the start cell, where the
    border forbids it. *)
Lemma explore_choice_unfiltered_witness :
  legal (allowed_actions Environment.init) (0, 0) 0 = false ∧
  Robot.choose_action Robot.init_default (0, 0) (explore_draws 0) = Ok 0 ∧
  ∃ self', Robot.update_bot Robot.init_default Environment.init (explore_draws 0)
           = Ok (self', Environment.init) ∧
           game_over self' = false ∧
           total_reward self' = -1.
Proof.
  assert (Hd : step_draws_ok (explore_draws 0))
    by (apply step_draws_ok_explore; unfold is_action; lia).
  assert (Hu : (1 - 1 <= d_take_best (explore_draws 0))%Q) by (simpl; lra).
  destruct (explore_choice_unfiltered Robot.init_default Environment.init
              (explore_draws 0) 1%Q 0 [] robot_ok_init_default env_ok_init Hd
              eq_refl eq_refl) as [_ Hexplore].
  destruct (Hexplore Hu) as (_ & Hiff & Hstep).
  assert (Ec : Robot.choose_action Robot.init_default
                 (robot_state Environment.init) (explore_draws 0) = Ok 0).
  { apply Hiff. split; [unfold is_action; lia |]. exists 0. lia. }
  split; [reflexivity |]. split; [exact Ec |].
  exact (Hstep 0 Ec eq_refl eq_refl).
Defined.

(** ** Restarting and running simulations *)

Section Episodes.

Lemma update_bot_keeps (self self' : Robot) (env env' : Environment) (d : step_draws) :
  Robot.update_bot self env d = Ok (self', env') →
  epsilon self' = epsilon self ∧
  epsilon_decrease self' = epsilon_decrease self ∧
  iteration self' = iteration self.
Proof.
  unfold Robot.update_bot. intros H.
  apply bind_Ok_inv in H as (action & _ & H).
  apply bind_Ok_inv in H as ([env1 [[ns r] go]] & _ & H).
  cbv beta iota zeta in H.
  apply bind_Ok_inv in H as (old & _ & H).
  apply bind_Ok_inv in H as (v & _ & H).
  apply bind_Ok_inv in H as (old' & _ & H).
  apply bind_Ok_inv in H as (t & _ & H).
  injection H as <- <-. auto.
Qed.

Lemma run_loop_keeps (ds : list step_draws) :
  ∀ (self self' : Robot) (env env' : Environment),
    Robot.run_loop self env ds = Ok (self', env') →
    epsilon self' = epsilon self ∧
    epsilon_decrease self' = epsilon_decrease self ∧
    iteration self' = iteration self.
Proof.
  induction ds as [| d ds IH]; intros self self' env env' H; simpl in H.
  - destruct (game_over self); [| discriminate]. injection H as <- <-. auto.
  - destruct (game_over self); [injection H as <- <-; auto |].
    apply bind_Ok_inv in H as ([self1 env1] & E1 & H).
    destruct (update_bot_keeps _ _ _ _ _ E1) as (H1 & H2 & H3).
    destruct (IH _ _ _ _ H) as (H4 & H5 & H6).
    repeat split; congruence.
Qed.

(** A simulation changes [epsilon] and [iteration] through its [restart]
    only. *)
Lemma run_bot_keeps (self self' : Robot) (env env' : Environment) (plotting : bool)
    (ds : list step_draws) :
  Robot.run_bot self env plotting ds = Ok (self', env') →
  epsilon self' = epsilon (Robot.restart self) ∧
  epsilon_decrease self' = epsilon_decrease self ∧
  iteration self' = iteration self + 1.
Proof.
  unfold Robot.run_bot. intros H. apply run_loop_keeps in H. exact H.
Qed.

Lemma restart_epsilon (self : Robot) (e dec : Q) :
  epsilon self = Fin e → epsilon_decrease self = Fin dec →
  ∃ e', epsilon (Robot.restart self) = Fin e' ∧
        (0 <= e')%Q ∧
        (0 <= e - dec → e' == e - dec)%Q ∧
        (e - dec <= 0 → e' == 0)%Q.
Proof.
  intros He Hdec. unfold Robot.restart. simpl. rewrite He, Hdec.
  unfold PyFloat.max, PyFloat.sub, PyFloat.of_Z. simpl.
  change (inject_Z 0) with 0%Q.
  destruct (Qle_bool 0 (e + - dec)) eqn:E; simpl.
  - apply Qle_bool_iff in E. eexists. split; [reflexivity |].
    split; [exact E |]. split; intros; lra.
  - apply Qle_bool_false in E. exists 0%Q. split; [reflexivity |].
    split; [lra |]. split; intros; lra.
Qed.

Lemma main_loop_epsilon (dss : list (list step_draws)) :
  ∀ (rob rob' : Robot) (env env' : Environment) (i : Z) (e dec : Q),
    Main.loop rob env i dss = Ok (rob', env') →
    epsilon rob = Fin e → epsilon_decrease rob = Fin dec →
    (0 <= e)%Q → (0 <= dec)%Q →
    ∃ e', epsilon rob' = Fin e' ∧ (0 <= e' <= e)%Q ∧
          iteration rob' = iteration rob + Z.of_nat (length dss).
Proof.
  induction dss as [| ds dss IH]; intros rob rob' env env' i e dec H He Hdec H0 Hd.
  - simpl in H. injection H as <- <-. exists e. split; [exact He |].
    split; [lra | simpl; lia].
  - simpl in H. apply bind_Ok_inv in H as ([rob1 env1] & E1 & H).
    unfold Main.iteration in E1. apply run_bot_keeps in E1 as (H1 & H2 & H3).
    destruct (restart_epsilon rob e dec He Hdec) as (e1 & He1 & Hpos & Hge & Hle).
    destruct (IH rob1 rob' env1 env' (i + 1) e1 dec H) as (e' & He' & Hb & Hit);
      [congruence | congruence | exact Hpos | exact Hd |].
    exists e'. split; [exact He' |]. split.
    + destruct (Qlt_le_dec (e - dec) 0) as [Hneg | Hnn].
      * rewrite Hle in Hb by lra. lra.
      * rewrite Hge in Hb by lra. lra.
    + rewrite Hit, H3. simpl length. lia.
Qed.

Lemma robot_ok_set_plotting (self : Robot) (b : bool) :
  robot_ok self → robot_ok (Robot.set_plotting b self).
Proof. intros H. exact H. Qed.

(** [restart] keeps a well-formed robot well-formed when [epsilon] is
    decreased by a non-negative step. *)
Lemma robot_ok_restart (self : Robot) (dec : Q) :
  robot_ok self → epsilon_decrease self = Fin dec → (0 <= dec)%Q →
  robot_ok (Robot.restart self).
Proof.
  intros (Hacts & Hshape & Hfin & Ha & Hg & e & He & Hrange) Hdec Hd.
  destruct (restart_epsilon self e dec He Hdec) as (e' & He' & Hpos & Hge & Hle).
  split; [exact Hacts |]. split; [exact Hshape |]. split; [exact Hfin |].
  split; [exact Ha |]. split; [exact Hg |].
  exists e'. split; [exact He' |]. split; [exact Hpos |].
  destruct (Qlt_le_dec (e - dec) 0) as [Hneg | Hnn].
  - rewrite Hle by lra. lra.
  - rewrite Hge by lra. lra.
Qed.

Lemma robot_ok_main_rob : robot_ok Main.rob.
Proof.
  split; [reflexivity |]. split; [split; [reflexivity | repeat constructor] |].
  split; [repeat constructor; eexists; reflexivity |].
  split; [eexists; reflexivity |]. split; [eexists; reflexivity |].
  exists 1%Q. split; [reflexivity | lra].
Qed.

(** The entries that a successful [setitem3] into a 5x5x4 table leaves
    alone. *)
Lemma Np_setitem3_frame (t : list (list (list pyfloat))) (r c a : Z) (x : pyfloat)
    (t' : list (list (list pyfloat))) :
  shape3 5 5 4 t → is_action a → Np.setitem3 t r c a x = Ok t' →
  in_bounds (r, c) →
  ∀ r' c' k, 0 <= r' → 0 <= c' → 0 <= k → (r', c', k) ≠ (r, c, a) →
             Np.getitem3 t' r' c' k = Np.getitem3 t r' c' k.
Proof.
  intros Hshape Ha Et [Hr Hc]. simpl in Hr, Hc.
  unfold Environment.height, Environment.width in *.
  destruct (setitem3_in_range 5 5 4 t r c a x Hshape)
    as (t0 & Et0 & _ & _ & Hframe); [lia | lia | unfold is_action in Ha; lia |].
  assert (t0 = t') by congruence. subst t0. exact Hframe.
Qed.

End Episodes.

(** C8. [restart] adds one to [iteration], zeroes [total_reward], clears
    [game_over] and sets [epsilon] to [max(epsilon - epsilon_decrease, 0)].
    For a non-negative [epsilon_decrease] and [epsilon], the new [epsilon]
    is not negative and not above the old one, and after any number of
    simulations run by the loop of [main] (each restarts once and changes
    [epsilon] nowhere else) it is still not negative and not above its
    initial value. *)
Theorem restart_counters_and_decay (self : Robot) :
  iteration (Robot.restart self) = iteration self + 1 ∧
  total_reward (Robot.restart self) = 0 ∧
  game_over (Robot.restart self) = false ∧
  epsilon (Robot.restart self)
  = PyFloat.max (PyFloat.sub (epsilon self) (epsilon_decrease self)) (PyFloat.of_Z 0) ∧
  ∀ e dec, epsilon self = Fin e → epsilon_decrease self = Fin dec →
    (∃ e', epsilon (Robot.restart self) = Fin e' ∧ (0 <= e')%Q ∧
           (0 <= e - dec → e' == e - dec)%Q ∧ (e - dec <= 0 → e' == 0)%Q ∧
           (0 <= e → 0 <= dec → e' <= e)%Q) ∧
    ∀ env i dss rob' env',
      (0 <= e)%Q → (0 <= dec)%Q →
      Main.loop self env i dss = Ok (rob', env') →
      ∃ e', epsilon rob' = Fin e' ∧ (0 <= e' <= e)%Q ∧
            iteration rob' = iteration self + Z.of_nat (length dss).
Proof.
  split; [reflexivity |]. split; [reflexivity |]. split; [reflexivity |].
  split; [reflexivity |]. intros e dec He Hdec. split.
  - destruct (restart_epsilon self e dec He Hdec) as (e' & He' & Hpos & Hge & Hle).
    exists e'. split; [exact He' |]. split; [exact Hpos |].
    split; [exact Hge |]. split; [exact Hle |]. intros H0 Hd.
    destruct (Qlt_le_dec (e - dec) 0) as [Hneg | Hnn].
    + rewrite Hle by lra. exact H0.
    + rewrite Hge by lra. lra.
  - intros env i dss rob' env' H0 Hd H.
    exact (main_loop_epsilon dss self rob' env env' i e dec H He Hdec H0 Hd).
Qed.

(** One simulation of [main]'s robot: [epsilon] goes from 1 to 2999/3000. *)
Lemma restart_counters_and_decay_witness :
  ∃ rob' env' e',
    Main.loop Main.rob Main.env 0 [right_right_down] = Ok (rob', env') ∧
    epsilon rob' = Fin e' ∧ (0 <= e' <= 1)%Q ∧ iteration rob' = 1.
Proof.
  destruct (restart_counters_and_decay Main.rob) as (_ & _ & _ & _ & H).
  destruct (H 1%Q (1 # 3000)%Q eq_refl eq_refl) as [_ Hloop].
  assert (E : ∃ rob' env',
             Main.loop Main.rob Main.env 0 [right_right_down] = Ok (rob', env'))
    by (vm_compute; eauto).
  destruct E as (rob' & env' & E).
  destruct (Hloop Main.env 0 [right_right_down] rob' env') as (e' & He' & Hb & Hit);
    [lra | lra | exact E |].
  exists rob', env', e'. split; [exact E |]. split; [exact He' |].
  split; [exact Hb | exact Hit].
Defined.

(** C10, as stated, fails: [run_bot] does not reset the environment.  On
    an environment left on the final state (1, 1) the first step is taken
    from (1, 1): with the draws "down", "up" the simulation ends after two
    steps with the entry of ((1, 1), down) rewritten and the entries of the
    start cell untouched, which is not what the same draws give from the
    start cell. *)
Lemma run_bot_starts_where_the_environment_is :
  robot_state episode_end = (1, 1) ∧
  (∃ rob' env',
     Robot.run_bot Robot.init_default episode_end false down_up = Ok (rob', env') ∧
     total_reward rob' = -102 ∧
     robot_state env' = (1, 1) ∧
     Np.getitem3 (Q_table rob') 1 1 2 = Ok (Fin (-1.098)) ∧
     Np.getitem3 (Q_table Robot.init_default) 1 1 2 = Ok (Fin (-1)) ∧
     Np.getitem3 (Q_table rob') 0 0 2 = Ok (Fin (-1))) ∧
  Robot.run_bot Robot.init_default (Environment.reset episode_end) false down_up
  = OutOfDraws ∧
  Robot.run_bot Robot.init_default episode_end false down_up
  ≠ Robot.run_bot Robot.init_default (Environment.reset episode_end) false down_up.
Proof.
  split; [reflexivity |]. split; [| split].
  - vm_compute. eexists. eexists. split; [reflexivity |].
    repeat split; reflexivity.
  - vm_compute. reflexivity.
  - vm_compute. discriminate.
Qed.

(** C10, amended. It is the loop of [main], not [run_bot], that resets the
    environment before each simulation: an iteration of that loop is
    [run_bot] on the reset environment, where the previous simulation left
    the robot makes no difference, and its first [update_bot] runs with the
    robot on (0, 0) (it rewrites an entry of that cell and no other). *)
Theorem main_resets_before_each_simulation (rob : Robot) (env : Environment)
    (i : Z) (d : step_draws) (ds : list step_draws) (dec : Q) :
  robot_ok rob → epsilon_decrease rob = Fin dec → (0 <= dec)%Q →
  env_ok env → step_draws_ok d →
  robot_state (Environment.reset env) = (0, 0) ∧
  Main.iteration rob env i (d :: ds)
  = Robot.run_bot rob (Environment.reset env) (3000 <=? i) (d :: ds) ∧
  (∀ s, Main.iteration rob (set_robot_state s env) i (d :: ds)
        = Main.iteration rob env i (d :: ds)) ∧
  ∃ action rob1 env1,
    Robot.choose_action (Robot.restart (Robot.set_plotting (3000 <=? i) rob))
      (0, 0) d = Ok action ∧
    Robot.update_bot (Robot.restart (Robot.set_plotting (3000 <=? i) rob))
      (Environment.reset env) d = Ok (rob1, env1) ∧
    Main.iteration rob env i (d :: ds) = Robot.run_loop rob1 env1 ds ∧
    ∀ r c k, 0 <= r → 0 <= c → 0 <= k → (r, c, k) ≠ (0, 0, action) →
             Np.getitem3 (Q_table rob1) r c k = Np.getitem3 (Q_table rob) r c k.
Proof.
  intros Hok Hdec Hd0 He Hd.
  split; [reflexivity |]. split; [reflexivity |].
  split; [intros s; reflexivity |].
  set (rob0 := Robot.restart (Robot.set_plotting (3000 <=? i) rob)).
  assert (Hok0 : robot_ok rob0)
    by exact (robot_ok_restart _ dec (robot_ok_set_plotting _ _ Hok) Hdec Hd0).
  assert (He0 : env_ok (Environment.reset env)).
  { apply env_ok_set_robot_state; [exact He |].
    unfold in_bounds, Environment.height, Environment.width. simpl. lia. }
  destruct (update_bot_spec rob0 (Environment.reset env) d Hok0 He0 Hd)
    as (action & env1 & reward & done & old & v & t &
        Ea & Ha & _ & _ & _ & _ & _ & Et & Eu & _).
  pose proof Hok0 as (_ & Hshape & _).
  assert (Hstart : in_bounds (0, 0))
    by (unfold in_bounds, Environment.height, Environment.width; simpl; lia).
  pose proof (Np_setitem3_frame (Q_table rob0) 0 0 action _ t Hshape Ha Et Hstart)
    as Hframe.
  exists action, (Robot.set_Q_table t (Robot.set_outcome done reward rob0)), env1.
  split; [exact Ea |]. split; [exact Eu |]. split.
  - unfold Main.iteration, Robot.run_bot. fold rob0.
    change (Robot.run_loop rob0 (Environment.reset env) (d :: ds))
      with ('(self, environment) ← Robot.update_bot rob0 (Environment.reset env) d;
            Robot.run_loop self environment ds).
    rewrite Eu. reflexivity.
  - exact Hframe.
Qed.

(** After a simulation that ended on (1, 1), the next one of [main]. *)
Lemma main_resets_before_each_simulation_witness :
  ∃ action rob1 env1,
    Robot.choose_action (Robot.restart (Robot.set_plotting false Main.rob))
      (0, 0) (explore_draws 2) = Ok action ∧
    Robot.update_bot (Robot.restart (Robot.set_plotting false Main.rob))
      (Environment.reset episode_end) (explore_draws 2) = Ok (rob1, env1) ∧
    Main.iteration Main.rob episode_end 0 (explore_draws 2 :: [explore_draws 0])
    = Robot.run_loop rob1 env1 [explore_draws 0] ∧
    ∀ r c k, 0 <= r → 0 <= c → 0 <= k → (r, c, k) ≠ (0, 0, action) →
             Np.getitem3 (Q_table rob1) r c k = Np.getitem3 (Q_table Main.rob) r c k.
Proof.
  apply (main_resets_before_each_simulation Main.rob episode_end 0
           (explore_draws 2) [explore_draws 0] (1 # 3000)).
  - exact robot_ok_main_rob.
  - reflexivity.
  - lra.
  - apply env_ok_set_robot_state; [exact env_ok_init |].
    unfold in_bounds, Environment.height, Environment.width. simpl. lia.
  - apply step_draws_ok_explore. unfold is_action. lia.
Defined.

(** * Further properties of the environment *)

Section EnvironmentMore.

Import Np.

(** The reward of a cell of the board: zero off the final states. *)
Lemma board_value (s : state) (r : Z) :
  in_bounds s → getitem2 Environment.init_board_rewards s.1 s.2 = Ok r →
  (Environment.contains (final_states Environment.init) s = true ∧
   (r = -100 ∨ r = 50 ∨ r = 100)) ∨
  (Environment.contains (final_states Environment.init) s = false ∧ r = 0).
Proof.
  intros Hs. destruct s as [row col].
  destruct (in_bounds_cases _ Hs) as [Hr Hc]. simpl in Hr, Hc.
  destruct Hr as [-> | [-> | [-> | [-> | ->]]]];
    destruct Hc as [-> | [-> | [-> | [-> | ->]]]];
    vm_compute; intros [= <-]; (left; split; [reflexivity | lia])
                               || (right; split; [reflexivity | lia]).
Qed.

(** What a successful call on the board returns. *)
Lemma receive_action_outcome (env env' : Environment) (action : Z)
    (us : kernel_draws) (s' : state) (reward : Z) (done : bool) :
  env_ok env → is_action action → unit_draw (draw_for action us) →
  Environment.receive_action env action us = Ok (env', (s', reward, done)) →
  s' = robot_state env' ∧ env_ok env' ∧
  (done = true →
   s' ∈ final_states env ∧
   getitem2 (board_rewards env) s'.1 s'.2 = Ok (reward + 1) ∧
   (reward = -101 ∨ reward = 49 ∨ reward = 99)) ∧
  (done = false → reward = -1).
Proof.
  intros He Ha Hu E.
  destruct (randomized_action_total action us Ha Hu) as (ra & Hr & Hra).
  pose proof (receive_action_branches env action us ra He Hra Hr) as H.
  pose proof He as (Hb & _ & Hf & _).
  destruct (legal (allowed_actions env) (robot_state env) ra).
  - destruct H as (s1 & r & _ & Hs1 & Hrew & E1).
    rewrite E1 in E. injection E as <- <- <- <-.
    split; [reflexivity |].
    split; [apply env_ok_set_robot_state; assumption |].
    rewrite Hb in Hrew. destruct (board_value s1 r Hs1 Hrew) as [[Hc Hv] | [Hc Hv]];
      rewrite Hf, Hc.
    + split; [| discriminate]. intros _.
      split; [apply contains_elem_of; exact Hc |].
      split; [rewrite Hb, Hrew; f_equal; lia | lia].
    + split; [discriminate |]. intros _. lia.
  - rewrite H in E. injection E as <- <- <- <-.
    split; [reflexivity |]. split; [exact He |].
    split; [discriminate | reflexivity].
Qed.

End EnvironmentMore.

(** * The backup of [update_bot] *)

Section Backup.

Import Np.

Lemma getitem3_Forall {A} (P : A → Prop) (t : list (list (list A)))
    (i j k : Z) (x : A) :
  Forall (Forall (Forall P)) t → getitem3 t i j k = Ok x → P x.
Proof.
  unfold getitem3. intros Ht H.
  apply bind_Ok_inv in H as (plane & Hp & H).
  apply bind_Ok_inv in H as (row & Hr & H).
  apply getitem_elem_of in Hp, Hr, H.
  rewrite Forall_forall in Ht. pose proof (Ht _ Hp) as H1.
  rewrite Forall_forall in H1. pose proof (H1 _ Hr) as H2.
  rewrite Forall_forall in H2. exact (H2 _ H).
Qed.

Lemma within_weaken (lo hi lo' hi' : Q) (x : pyfloat) :
  (lo' <= lo)%Q → (hi <= hi')%Q → within lo hi x → within lo' hi' x.
Proof. intros Hlo Hhi (q & -> & Hq). exists q. split; [reflexivity | lra]. Qed.

Lemma table_within_weaken (lo hi lo' hi' : Q) (t : list (list (list pyfloat))) :
  (lo' <= lo)%Q → (hi <= hi')%Q → table_within lo hi t → table_within lo' hi' t.
Proof.
  intros Hlo Hhi Ht. unfold table_within in *.
  eapply Forall_impl; [exact Ht |]. intros plane Hp.
  eapply Forall_impl; [exact Hp |]. intros row Hr.
  eapply Forall_impl; [exact Hr |]. intros x. apply within_weaken; assumption.
Qed.

Lemma safe_magnitude_large : (101 <= safe_magnitude)%Q.
Proof.
  unfold safe_magnitude. change 101%Q with (inject_Z 101).
  rewrite <- Zle_Qle. apply Z.leb_le. vm_compute. reflexivity.
Qed.

(** With [alpha] and [gamma] in [0, 1] the new entry is a convex combination
    of the old entry and the target [r + g * v], and the target is at most
    101 away from the range of the table. *)
Lemma backup_magnitude (a g B old v r : Q) :
  (0 <= a <= 1)%Q → (0 <= g <= 1)%Q → (101 <= B)%Q →
  (- B <= old <= B)%Q → (- B <= v <= B)%Q → (-101 <= r <= 99)%Q →
  (- (2 * B) <= old + a * ((r + g * v) + - old) <= 2 * B)%Q.
Proof.
  intros Ha Hg HB Hold Hv Hr.
  assert (H1 : (0 <= g * (v + B))%Q) by (apply Qmult_le_0_compat; lra).
  assert (H2 : (0 <= g * (B - v))%Q) by (apply Qmult_le_0_compat; lra).
  assert (H3 : (0 <= (1 - g) * B)%Q) by (apply Qmult_le_0_compat; lra).
  assert (H4 : (0 <= (1 - a) * (old + 2 * B))%Q) by (apply Qmult_le_0_compat; lra).
  assert (H5 : (0 <= (1 - a) * (2 * B - old))%Q) by (apply Qmult_le_0_compat; lra).
  assert (H6 : (0 <= a * ((r + g * v) + 2 * B))%Q) by (apply Qmult_le_0_compat; lra).
  assert (H7 : (0 <= a * (2 * B - (r + g * v)))%Q) by (apply Qmult_le_0_compat; lra).
  split; lra.
Qed.

Lemma backup_in_range_init_default : backup_in_range Robot.init_default.
Proof.
  pose proof safe_magnitude_large as HB.
  split; [exists 0.1%Q; split; [reflexivity | lra] |].
  split; [exists 0.98%Q; split; [reflexivity | lra] |].
  unfold table_within. simpl. unfold full3.
  do 3 apply Forall_replicate.
  exists (-1)%Q. split; [reflexivity | lra].
Qed.

End Backup.

(** C1. Every call of [update_bot], the one that ends the simulation
    included, rewrites exactly one entry of the table, the one of the state
    before the call and the chosen action, to
    [old + alpha * (reward + gamma * V - old)]; [V] is the entry of an
    action that is legal from the new state and no action legal from the
    new state has a larger entry.  The robot is one whose [alpha] and
    [gamma] lie in [0, 1] and whose table lies within [safe_magnitude], the
    range in which no intermediate value of the backup leaves the floats:
    the table after the call is finite and within twice that magnitude. *)
Theorem update_bot_bellman_backup (self : Robot) (env : Environment) (d : step_draws) :
  robot_ok self → backup_in_range self → env_ok env → step_draws_ok d →
  ∃ action env' new_state reward done old v self',
    Robot.choose_action self (robot_state env) d = Ok action ∧
    Environment.receive_action env action (d_kernel d)
    = Ok (env', (new_state, reward, done)) ∧
    Np.getitem3 (Q_table self) (robot_state env).1 (robot_state env).2 action
    = Ok old ∧
    Robot.max_reachable_q self new_state (allowed_actions env') = Ok v ∧
    (∃ a, is_action a ∧ legal (allowed_actions env') new_state a = true ∧
          Np.getitem3 (Q_table self) new_state.1 new_state.2 a = Ok v) ∧
    (∀ a q, is_action a → legal (allowed_actions env') new_state a = true →
            Np.getitem3 (Q_table self) new_state.1 new_state.2 a = Ok q →
            PyFloat.leb q v = true) ∧
    Robot.update_bot self env d = Ok (self', env') ∧
    game_over self' = done ∧
    Np.getitem3 (Q_table self') (robot_state env).1 (robot_state env).2 action
    = Ok (PyFloat.add old
            (PyFloat.mul (alpha self)
               (PyFloat.sub
                  (PyFloat.add (PyFloat.of_Z reward) (PyFloat.mul (gamma self) v))
                  old))) ∧
    (∀ i j k, 0 <= i → 0 <= j → 0 <= k →
              (i, j, k) ≠ ((robot_state env).1, (robot_state env).2, action) →
              Np.getitem3 (Q_table self') i j k = Np.getitem3 (Q_table self) i j k) ∧
    table_within (- (2 * safe_magnitude)) (2 * safe_magnitude) (Q_table self') ∧
    robot_ok self' ∧ env_ok env'.
Proof.
  intros Hok (Halpha & Hgamma & Hrange) He Hd.
  destruct (update_bot_spec self env d Hok He Hd)
    as (action & env' & reward & done & old & v & t &
        Ea & Ha & Er & He' & Hold & Ev & _ & Et & Eu & Hok').
  pose proof He as (_ & _ & _ & Hs). pose proof He' as (_ & Hal' & _ & Hs').
  pose proof Hok as (_ & Hshape & _).
  destruct (max_reachable_q_ok self (robot_state env') Hok Hs')
    as (v' & Ev' & _ & Hin & Hub).
  rewrite Hal' in Ev. assert (v' = v) by congruence. subst v'.
  destruct (setitem3_in_range 5 5 4 (Q_table self) (robot_state env).1
              (robot_state env).2 action
              (Robot.backup self old reward v old) Hshape)
    as (t' & Et' & _ & Hget & Hframe);
    [apply Hs | apply Hs | unfold is_action in Ha; lia |].
  assert (t' = t) by congruence. subst t'.
  assert (Hr : -101 <= reward <= 99).
  { pose proof Hd as (_ & _ & Hk).
    destruct (receive_action_outcome env env' action (d_kernel d) _ reward done
                He Ha (draw_for_ok action _ Hk) Er) as (_ & _ & Hdone & Hnot).
    destruct done.
    - destruct (Hdone eq_refl) as (_ & _ & Hcases). lia.
    - rewrite (Hnot eq_refl). lia. }
  assert (Hnew : within (- (2 * safe_magnitude)) (2 * safe_magnitude)
                   (Robot.backup self old reward v old)).
  { destruct (getitem3_Forall _ _ _ _ _ _ Hrange Hold) as (qo & -> & Hqo).
    destruct Hin as (b & _ & _ & Hb).
    destruct (getitem3_Forall _ _ _ _ _ _ Hrange Hb) as (qv & -> & Hqv).
    destruct Halpha as (a & Halpha & Hqa). destruct Hgamma as (g & Hgamma & Hqg).
    unfold Robot.backup. rewrite Halpha, Hgamma.
    eexists. split; [reflexivity |].
    apply backup_magnitude;
      [exact Hqa | exact Hqg | exact safe_magnitude_large | exact Hqo | exact Hqv |].
    destruct Hr as [Hr1 Hr2]. rewrite Zle_Qle in Hr1, Hr2. split; assumption. }
  exists action, env', (robot_state env'), reward, done, old, v,
    (Robot.set_Q_table t (Robot.set_outcome done reward self)).
  rewrite Hal'.
  split; [exact Ea |]. split; [exact Er |]. split; [exact Hold |].
  split; [exact Ev |]. split; [exact Hin |]. split; [exact Hub |].
  split; [exact Eu |]. split; [reflexivity |]. split; [exact Hget |].
  split; [exact Hframe |].
  split; [| split; [exact Hok' | exact He']].
  apply (setitem3_Forall _ _ _ _ _ _ _ Et); [| exact Hnew].
  pose proof safe_magnitude_large as HB.
  apply (table_within_weaken (- safe_magnitude) safe_magnitude);
    [lra | lra | exact Hrange].
Qed.

(** The step that ends a simulation: "down" from (0, 2) into the final
    state (1, 2). *)
Lemma update_bot_bellman_backup_witness :
  robot_ok Robot.init_default ∧ backup_in_range Robot.init_default ∧
  env_ok above_final ∧ step_draws_ok (explore_draws 2) ∧
  ∃ self' env',
    Robot.update_bot Robot.init_default above_final (explore_draws 2)
    = Ok (self', env') ∧
    game_over self' = true ∧
    robot_state env' = (1, 2) ∧
    Np.getitem3 (Q_table self') 0 2 2 = Ok (Fin 3.902).
Proof.
  assert (Hd : step_draws_ok (explore_draws 2))
    by (apply step_draws_ok_explore; unfold is_action; lia).
  assert (He : env_ok above_final).
  { apply env_ok_set_robot_state; [exact env_ok_init |].
    unfold in_bounds, Environment.height, Environment.width. simpl. lia. }
  split; [exact robot_ok_init_default |].
  split; [exact backup_in_range_init_default |]. split; [exact He |].
  split; [exact Hd |].
  destruct (update_bot_bellman_backup Robot.init_default above_final
              (explore_draws 2) robot_ok_init_default
              backup_in_range_init_default He Hd)
    as (a & env' & ns & r & done & old & v & self' &
        _ & _ & _ & _ & _ & _ & E & _).
  exists self', env'. split; [exact E |].
  vm_compute in E. injection E as <- <-.
  split; [reflexivity |]. split; reflexivity.
Defined.

(** X1. An action that is none of 0, 1, 2, 3 is a missing key of the dict
    of draws: the call raises [KeyError], on every environment and for
    every outcome of the draws. *)
Theorem receive_action_unknown_action (env : Environment) (action : Z)
    (us : kernel_draws) :
  ¬ is_action action →
  Environment.receive_action env action us = Raise KeyError.
Proof.
  intros Ha. unfold Environment.receive_action, Environment.randomized_action,
    Np.random_choice.
  change (Np.valid_p 4 [0.8; 0.1; 0; 0.1]%Q) with true.
  change (Np.valid_p 4 [0.1; 0.8; 0.1; 0]%Q) with true.
  change (Np.valid_p 4 [0; 0.1; 0.8; 0.1]%Q) with true.
  change (Np.valid_p 4 [0.1; 0; 0.1; 0.8]%Q) with true.
  cbv beta iota. rewrite !bind_Ok. unfold dict_get.
  unfold is_action in Ha.
  destruct (Z.eqb_spec action 0); [lia |].
  destruct (Z.eqb_spec action 1); [lia |].
  destruct (Z.eqb_spec action 2); [lia |].
  destruct (Z.eqb_spec action 3); [lia |].
  reflexivity.
Qed.

Lemma receive_action_unknown_action_witness :
  Environment.receive_action Environment.init 4 half_draws = Raise KeyError ∧
  Environment.receive_action Environment.init (-1) half_draws = Raise KeyError.
Proof.
  split; apply receive_action_unknown_action; unfold is_action; lia.
Defined.

(** X2. Whatever the mask, the rewards and the position are, a call that
    returns changes nothing of the environment but the robot's position,
    returns that position, and moves the robot by at most one cell, along
    one axis. *)
Theorem receive_action_unit_step (env env' : Environment) (action : Z)
    (us : kernel_draws) (s' : state) (reward : Z) (done : bool) :
  Environment.receive_action env action us = Ok (env', (s', reward, done)) →
  board_rewards env' = board_rewards env ∧
  allowed_actions env' = allowed_actions env ∧
  final_states env' = final_states env ∧
  robot_state env' = s' ∧
  Z.abs (s'.1 - (robot_state env).1) + Z.abs (s'.2 - (robot_state env).2) <= 1.
Proof.
  unfold Environment.receive_action. intros H.
  apply bind_Ok_inv in H as (ra & _ & H).
  apply bind_Ok_inv in H as (m & _ & H).
  destruct (PyFloat.truthy m).
  - apply bind_Ok_inv in H as (ns & Hn & H).
    apply bind_Ok_inv in H as (r & _ & H).
    injection H as <- <- <- <-. simpl.
    repeat (split; [reflexivity |]).
    unfold Environment.next_state, dict_get in Hn.
    destruct (ra =? 0); [injection Hn as <-; simpl; lia |].
    destruct (ra =? 1); [injection Hn as <-; simpl; lia |].
    destruct (ra =? 2); [injection Hn as <-; simpl; lia |].
    destruct (ra =? 3); [injection Hn as <-; simpl; lia | discriminate].
  - injection H as <- <- <- <-.
    repeat (split; [reflexivity |]). lia.
Qed.

Lemma receive_action_unit_step_witness :
  ∃ env',
    Environment.receive_action Environment.init 3 half_draws
    = Ok (env', ((0, 1), -1, false)) ∧
    allowed_actions env' = allowed_actions Environment.init ∧
    robot_state env' = (0, 1).
Proof.
  eexists. split; [reflexivity |].
  destruct (receive_action_unit_step Environment.init _ 3 half_draws
              (0, 1) (-1) false eq_refl) as (_ & H2 & _ & H4 & _).
  split; [exact H2 | exact H4].
Defined.

(** X3. On the board of [Environment()] a step that does not end the
    simulation costs exactly one, and a step that ends it has put the robot
    on a final state and pays that state's reward minus one: -101, 49 or
    99. *)
Theorem receive_action_reward (env env' : Environment) (action : Z)
    (us : kernel_draws) (s' : state) (reward : Z) (done : bool) :
  env_ok env → is_action action → unit_draw (draw_for action us) →
  Environment.receive_action env action us = Ok (env', (s', reward, done)) →
  (done = false → reward = -1) ∧
  (done = true →
   s' ∈ final_states env ∧
   Np.getitem2 (board_rewards env) s'.1 s'.2 = Ok (reward + 1) ∧
   (reward = -101 ∨ reward = 49 ∨ reward = 99)) ∧
  -101 <= reward <= 99.
Proof.
  intros He Ha Hu E.
  destruct (receive_action_outcome env env' action us s' reward done He Ha Hu E)
    as (_ & _ & Hdone & Hnot).
  split; [exact Hnot |]. split; [exact Hdone |].
  destruct done.
  - destruct (Hdone eq_refl) as (_ & _ & Hv). lia.
  - rewrite (Hnot eq_refl). lia.
Qed.

Lemma receive_action_reward_witness :
  ∃ env',
    Environment.receive_action above_final 2 half_draws
    = Ok (env', ((1, 2), 49, true)) ∧
    (1, 2) ∈ final_states above_final.
Proof.
  eexists. split; [reflexivity |].
  assert (He : env_ok above_final).
  { apply env_ok_set_robot_state; [exact env_ok_init |].
    unfold in_bounds, Environment.height, Environment.width. simpl. lia. }
  assert (Ha : is_action 2) by (unfold is_action; lia).
  destruct (receive_action_reward above_final _ 2 half_draws (1, 2) 49 true
              He Ha unit_draw_half eq_refl) as (_ & H & _).
  exact (proj1 (H eq_refl)).
Defined.

(** X4. The mask built by [Environment.__init__]: every cell of the board
    has a legal action, and every wall is two-sided, that is, a legal move
    leads to a cell from which the opposite action is legal and leads
    back. *)
Theorem allowed_actions_walls (s : state) :
  in_bounds s →
  (∃ a, is_action a ∧ legal Environment.init_allowed_actions s a = true) ∧
  ∀ a, is_action a → legal Environment.init_allowed_actions s a = true →
       ∃ s' b, Environment.next_state s a = Ok s' ∧ in_bounds s' ∧
               is_action b ∧ opposite a b = true ∧
               legal Environment.init_allowed_actions s' b = true ∧
               Environment.next_state s' b = Ok s.
Proof.
  intros Hs. split; [exact (some_action_legal s Hs) |].
  intros a Ha Hl. destruct s as [r c].
  destruct (in_bounds_cases _ Hs) as [Hr Hc]. simpl in Hr, Hc.
  destruct (is_action_cases _ Ha) as [-> | [-> | [-> | ->]]];
    [ exists (r - 1, c), 2 | exists (r, c - 1), 3
    | exists (r + 1, c), 0 | exists (r, c + 1), 1 ];
    destruct Hr as [-> | [-> | [-> | [-> | ->]]]];
    destruct Hc as [-> | [-> | [-> | [-> | ->]]]];
    vm_compute in Hl; try discriminate Hl;
    (split; [reflexivity |]);
    (split; [unfold in_bounds, Environment.height, Environment.width; simpl; lia |]);
    (split; [unfold is_action; lia |]);
    (split; [reflexivity |]); split; reflexivity.
Qed.

Lemma allowed_actions_walls_witness :
  ∃ s' b, Environment.next_state (0, 2) 2 = Ok s' ∧ in_bounds s' ∧
          is_action b ∧ opposite 2 b = true ∧
          legal Environment.init_allowed_actions s' b = true ∧
          Environment.next_state s' b = Ok (0, 2).
Proof.
  assert (Hs : in_bounds (0, 2))
    by (unfold in_bounds, Environment.height, Environment.width; simpl; lia).
  assert (Ha : is_action 2) by (unfold is_action; lia).
  exact (proj2 (allowed_actions_walls (0, 2) Hs) 2 Ha eq_refl).
Defined.

Lemma way_out_actions (s : state) :
  in_bounds s → Forall is_action (way_out s).
Proof.
  intros Hs. destruct s as [r c].
  destruct (in_bounds_cases _ Hs) as [Hr Hc]. simpl in Hr, Hc.
  destruct Hr as [-> | [-> | [-> | [-> | ->]]]];
    destruct Hc as [-> | [-> | [-> | [-> | ->]]]];
    repeat constructor; unfold is_action; lia.
Qed.

(** X5. From every cell of the board some sequence of actions, when no
    action is distorted, ends the simulation: the last call reports game
    over and leaves the robot on a final state.  (From a final state too:
    the robot steps off and back.) *)
Theorem final_state_reachable (env : Environment) :
  env_ok env →
  ∃ actions env' outs out,
    Forall is_action actions ∧
    receive_actions env (undistorted actions) = Ok (env', outs) ∧
    last outs = Some out ∧ out.2 = true ∧
    robot_state env' ∈ final_states env.
Proof.
  intros He. destruct env as [b al f s].
  destruct He as (Hb & Hal & Hf & Hs). simpl in Hb, Hal, Hf, Hs. subst b al f.
  exists (way_out s).
  pose proof (way_out_actions _ Hs) as Hacts.
  destruct s as [r c].
  destruct (in_bounds_cases _ Hs) as [Hr Hc]. simpl in Hr, Hc.
  destruct Hr as [-> | [-> | [-> | [-> | ->]]]];
    destruct Hc as [-> | [-> | [-> | [-> | ->]]]];
    (destruct (receive_actions _ (undistorted (way_out _)))
       as [[env' outs] | e |] eqn:E;
     vm_compute in E; try discriminate E;
     injection E as <- <-;
     eexists; eexists; eexists;
     split; [exact Hacts |];
     split; [reflexivity |];
     split; [reflexivity |];
     split; [reflexivity |];
     apply contains_elem_of; reflexivity).
Qed.

Lemma final_state_reachable_witness :
  ∃ actions env' outs out,
    Forall is_action actions ∧
    receive_actions Environment.init (undistorted actions) = Ok (env', outs) ∧
    last outs = Some out ∧ out.2 = true ∧
    robot_state env' ∈ final_states Environment.init.
Proof.
  exact (final_state_reachable Environment.init env_ok_init).
Defined.

(** * Further properties of the robot *)

Section MaxReachableMore.

Import Np.

Lemma max_reachable_q_loop_ext (Qt Qt' al : list (list (list pyfloat)))
    (s : state) (acts : list Z) :
  ∀ m,
    (∀ a, a ∈ acts → legal al s a = true →
          getitem3 Qt s.1 s.2 a = getitem3 Qt' s.1 s.2 a) →
    Robot.max_reachable_q_loop Qt al s m acts
    = Robot.max_reachable_q_loop Qt' al s m acts.
Proof.
  induction acts as [| a rest IH]; intros m H; [reflexivity |].
  assert (Hrest : ∀ a', a' ∈ rest → legal al s a' = true →
            getitem3 Qt s.1 s.2 a' = getitem3 Qt' s.1 s.2 a').
  { intros a' Ha'. apply H, elem_of_cons. auto. }
  rewrite !max_reachable_q_loop_cons.
  pose proof (H a (proj2 (elem_of_cons _ _ _) (or_introl eq_refl))) as Ha.
  unfold legal in Ha.
  destruct (getitem3 al s.1 s.2 a) as [x | e |]; simpl; try reflexivity.
  destruct (PyFloat.truthy x); [| apply IH, Hrest].
  rewrite <- (Ha eq_refl).
  destruct (getitem3 Qt s.1 s.2 a) as [q | e |]; simpl; try reflexivity.
  destruct (PyFloat.gtb q m); apply IH, Hrest.
Qed.

(** What a returned value is, for any mask and any table. *)
Lemma max_reachable_q_loop_value (Qt al : list (list (list pyfloat)))
    (s : state) (acts : list Z) :
  ∀ m v,
    Robot.max_reachable_q_loop Qt al s m acts = Ok v →
    (v = m ∨ PyFloat.gtb v m = true) ∧
    (v = m ∨ ∃ a, a ∈ acts ∧ legal al s a = true ∧
                  getitem3 Qt s.1 s.2 a = Ok v) ∧
    (∀ a q, a ∈ acts → legal al s a = true →
            getitem3 Qt s.1 s.2 a = Ok q → PyFloat.gtb q v = false).
Proof.
  induction acts as [| a rest IH]; intros m v H.
  - injection H as <-. repeat split; auto.
    intros a q Ha. apply elem_of_nil in Ha. contradiction.
  - rewrite max_reachable_q_loop_cons in H.
    apply bind_Ok_inv in H as (x & Hx & H).
    assert (Hlegal : legal al s a = PyFloat.truthy x)
      by (unfold legal; rewrite Hx; reflexivity).
    destruct (PyFloat.truthy x) eqn:Et.
    + apply bind_Ok_inv in H as (q & Hq & H).
      destruct (PyFloat.gtb q m) eqn:Eg.
      * rewrite Hq, bind_Ok in H.
        destruct (IH q v H) as (Hge & Hin & Hub).
        split; [| split].
        -- right. destruct Hge as [-> | Hge]; [exact Eg |].
           exact (gtb_trans _ _ _ Hge Eg).
        -- right. destruct Hin as [-> | (a' & Ha' & Hl & Hv)].
           ++ exists a. rewrite Hlegal. repeat split; auto.
              apply elem_of_cons. auto.
           ++ exists a'. repeat split; auto. apply elem_of_cons. auto.
        -- intros a0 q0 Ha0 Hl0 Hq0. apply elem_of_cons in Ha0 as [-> | Ha0].
           ++ assert (q0 = q) by congruence. subst q0.
              destruct Hge as [-> | Hge]; [apply gtb_irrefl | apply gtb_asym, Hge].
           ++ exact (Hub a0 q0 Ha0 Hl0 Hq0).
      * destruct (IH m v H) as (Hge & Hin & Hub).
        split; [exact Hge | split].
        -- destruct Hin as [-> | (a' & Ha' & Hl & Hv)]; [left; reflexivity |].
           right. exists a'. repeat split; auto. apply elem_of_cons. auto.
        -- intros a0 q0 Ha0 Hl0 Hq0. apply elem_of_cons in Ha0 as [-> | Ha0].
           ++ assert (q0 = q) by congruence. subst q0.
              destruct Hge as [-> | Hge]; [exact Eg |].
              exact (gtb_false_trans _ _ _ Eg Hge).
           ++ exact (Hub a0 q0 Ha0 Hl0 Hq0).
    + destruct (IH m v H) as (Hge & Hin & Hub).
      split; [exact Hge | split].
      * destruct Hin as [-> | (a' & Ha' & Hl & Hv)]; [left; reflexivity |].
        right. exists a'. repeat split; auto. apply elem_of_cons. auto.
      * intros a0 q0 Ha0 Hl0 Hq0. apply elem_of_cons in Ha0 as [-> | Ha0].
        -- congruence.
        -- exact (Hub a0 q0 Ha0 Hl0 Hq0).
Qed.

End MaxReachableMore.

(** X6. [max_reachable_q] reads the table at legal actions only: two robots
    with the same actions whose tables agree on the entries of the actions
    that are legal from the state get the same result, errors included,
    whatever the entries of the other actions are. *)
Theorem max_reachable_q_ignores_illegal (self self' : Robot) (s : state)
    (allowed_actions : list (list (list pyfloat))) :
  actions self' = actions self →
  (∀ a, a ∈ actions self → legal allowed_actions s a = true →
        Np.getitem3 (Q_table self) s.1 s.2 a
        = Np.getitem3 (Q_table self') s.1 s.2 a) →
  Robot.max_reachable_q self s allowed_actions
  = Robot.max_reachable_q self' s allowed_actions.
Proof.
  intros Ha H. unfold Robot.max_reachable_q. rewrite Ha.
  apply max_reachable_q_loop_ext. exact H.
Qed.

(** From (0, 0) only "down" and "right" are legal: an infinite entry
    under "up" changes nothing. *)
Lemma max_reachable_q_ignores_illegal_witness :
  Robot.max_reachable_q Robot.init_default (0, 0) Environment.init_allowed_actions
  = Robot.max_reachable_q
      (Robot.set_Q_table
         (<[0%nat := <[0%nat := [PInf; Fin (-1); Fin (-1); Fin (-1)]]>
                       (replicate 5 (replicate 4 (Fin (-1))))]>
            (Q_table Robot.init_default))
         Robot.init_default)
      (0, 0) Environment.init_allowed_actions.
Proof.
  apply max_reachable_q_ignores_illegal; [reflexivity |].
  intros a Ha Hl. simpl in Ha.
  repeat (apply elem_of_cons in Ha as [-> | Ha];
          [first [discriminate Hl | reflexivity] |]).
  apply elem_of_nil in Ha. contradiction.
Defined.

(** X7. For any mask and any table, entries [nan] and infinite included:
    a value returned by [max_reachable_q] is never [nan]; it is [-inf] or
    the entry of a legal action, and no legal action has a greater
    entry. *)
Theorem max_reachable_q_value (self : Robot) (s : state)
    (allowed_actions : list (list (list pyfloat))) (v : pyfloat) :
  Robot.max_reachable_q self s allowed_actions = Ok v →
  v ≠ NaN ∧
  (v = NInf ∨ ∃ a, a ∈ actions self ∧ legal allowed_actions s a = true ∧
                   Np.getitem3 (Q_table self) s.1 s.2 a = Ok v) ∧
  (∀ a q, a ∈ actions self → legal allowed_actions s a = true →
          Np.getitem3 (Q_table self) s.1 s.2 a = Ok q →
          PyFloat.gtb q v = false).
Proof.
  unfold Robot.max_reachable_q. intros H.
  destruct (max_reachable_q_loop_value _ _ _ _ _ _ H) as (Hge & Hin & Hub).
  split; [| split; [exact Hin | exact Hub]].
  destruct Hge as [-> | Hge]; [discriminate |].
  intros ->. discriminate Hge.
Qed.

(** A row with a [nan] under a legal action: the [nan] is passed over. *)
Lemma max_reachable_q_value_witness :
  Robot.max_reachable_q
    (Robot.set_Q_table
       (<[0%nat := <[0%nat := [Fin (-1); Fin (-1); NaN; Fin (-3)]]>
                     (replicate 5 (replicate 4 (Fin (-1))))]>
          (Q_table Robot.init_default))
       Robot.init_default)
    (0, 0) Environment.init_allowed_actions = Ok (Fin (-3)) ∧
  Fin (-3) ≠ NaN.
Proof.
  match goal with |- ?eq ∧ _ => assert (E : eq) by reflexivity end.
  split; [exact E |].
  exact (proj1 (max_reachable_q_value _ _ _ _ E)).
Defined.

(** X8. [np.random.choice] rejects probabilities outside [[0,1]]: when
    [epsilon] is not a finite number between 0 and 1, [update_bot] raises
    [ValueError] before any action is chosen, whatever the environment and
    the draws are. *)
Theorem update_bot_bad_epsilon (self : Robot) (env : Environment) (d : step_draws) :
  (¬ ∃ e, epsilon self = Fin e ∧ (0 <= e <= 1)%Q) →
  Robot.update_bot self env d = Raise ValueError.
Proof.
  intros H. unfold Robot.update_bot, Robot.choose_action.
  destruct (epsilon self) as [e | | |] eqn:Heps; try reflexivity.
  rewrite take_best_p, bind_Ok. unfold Np.random_choice.
  assert (Hv : Np.valid_p 2 [(1 + - e)%Q; e] = false).
  { destruct (Np.valid_p 2 [(1 + - e)%Q; e]) eqn:E; [| reflexivity].
    apply valid_p_spec in E as (_ & Hnn & _).
    inversion Hnn as [| ? ? H1 Hnn']; subst.
    inversion Hnn' as [| ? ? H2 _]; subst.
    exfalso. apply H. exists e. split; [reflexivity | lra]. }
  rewrite Hv. reflexivity.
Qed.

(** [Robot(epsilon=1.5, epsilon_decrease=0)] at its first step. *)
Lemma update_bot_bad_epsilon_witness :
  Robot.update_bot
    (Robot.restart (Robot.init (Fin 0.1) (Fin 1.5) (Fin 0.98) (Fin 0)))
    Environment.init greedy_draws
  = Raise ValueError.
Proof.
  apply update_bot_bad_epsilon. intros (e & He & Hrange).
  vm_compute in He. injection He as <-. lra.
Defined.

Section Simulations.

Import Np.

(** What a successful [update_bot] leaves behind. *)
Lemma update_bot_outcome (self self' : Robot) (env env' : Environment)
    (d : step_draws) :
  robot_ok self → env_ok env → step_draws_ok d →
  Robot.update_bot self env d = Ok (self', env') →
  robot_ok self' ∧ env_ok env' ∧
  epsilon_decrease self' = epsilon_decrease self ∧
  ∃ reward,
    total_reward self' = total_reward self + reward ∧
    (game_over self' = true →
     robot_state env' ∈ final_states env' ∧
     getitem2 (board_rewards env') (robot_state env').1 (robot_state env').2
     = Ok (reward + 1)) ∧
    (game_over self' = false → reward = -1).
Proof.
  intros Hok He Hd E.
  destruct (update_bot_spec self env d Hok He Hd)
    as (action & env1 & reward & done & old & v & t &
        _ & Ha & Er & He1 & _ & _ & _ & _ & Eu & Hok1).
  rewrite Eu in E. injection E as <- <-.
  pose proof Hd as (_ & _ & Hk).
  destruct (receive_action_outcome env env1 action (d_kernel d) _ reward done
              He Ha (draw_for_ok action _ Hk) Er) as (_ & _ & Hdone & Hnot).
  pose proof He as (Hb & _ & Hf & _). pose proof He1 as (Hb1 & _ & Hf1 & _).
  split; [exact Hok1 |]. split; [exact He1 |]. split; [reflexivity |].
  exists reward. split; [reflexivity |]. split.
  - simpl. intros Hd1. destruct (Hdone Hd1) as (Hin & Hrew & _).
    rewrite Hf1, <- Hf, Hb1, <- Hb. split; assumption.
  - exact Hnot.
Qed.

Lemma run_loop_done (self : Robot) (env : Environment) (ds : list step_draws) :
  game_over self = true → Robot.run_loop self env ds = Ok (self, env).
Proof. intros H. destruct ds; simpl; rewrite H; reflexivity. Qed.

Lemma run_loop_step (self : Robot) (env : Environment) (d : step_draws)
    (ds : list step_draws) :
  game_over self = false →
  Robot.run_loop self env (d :: ds)
  = ('(self1, env1) ← Robot.update_bot self env d; Robot.run_loop self1 env1 ds).
Proof. intros H. simpl. rewrite H. reflexivity. Qed.

(** The loop of [run_bot], started with [game_over] cleared: it returns
    after a number [n >= 1] of steps, not before, on a final state, and has
    added that state's reward minus [n] to [total_reward]. *)
Lemma run_loop_end (ds : list step_draws) :
  ∀ (self self' : Robot) (env env' : Environment),
    robot_ok self → env_ok env → Forall step_draws_ok ds →
    game_over self = false →
    Robot.run_loop self env ds = Ok (self', env') →
    robot_ok self' ∧ env_ok env' ∧
    epsilon_decrease self' = epsilon_decrease self ∧
    game_over self' = true ∧
    robot_state env' ∈ final_states env' ∧
    ∃ (n : nat) (R : Z),
      (1 <= n <= length ds)%nat ∧
      Robot.run_loop self env (take n ds) = Ok (self', env') ∧
      (∀ m, (m < n)%nat → Robot.run_loop self env (take m ds) = OutOfDraws) ∧
      getitem2 (board_rewards env') (robot_state env').1 (robot_state env').2
      = Ok R ∧
      total_reward self' = total_reward self + R - Z.of_nat n.
Proof.
  induction ds as [| d ds IH]; intros self self' env env' Hok He Hds Hgo E.
  - simpl in E. rewrite Hgo in E. discriminate E.
  - inversion Hds as [| ? ? Hd Hds']; subst.
    rewrite (run_loop_step _ _ _ _ Hgo) in E.
    apply bind_Ok_inv in E as ([self1 env1] & E1 & E).
    destruct (update_bot_outcome _ _ _ _ _ Hok He Hd E1)
      as (Hok1 & He1 & Hdec1 & reward & Htot & Hdone & Hnot).
    destruct (game_over self1) eqn:Hgo1.
    + rewrite (run_loop_done _ _ _ Hgo1) in E. injection E as <- <-.
      destruct (Hdone eq_refl) as [Hin Hrew].
      split; [exact Hok1 |]. split; [exact He1 |]. split; [exact Hdec1 |].
      split; [exact Hgo1 |]. split; [exact Hin |].
      exists 1%nat, (reward + 1). split; [simpl; lia |]. split; [| split; [| split]].
      * simpl take. rewrite (run_loop_step _ _ _ _ Hgo), E1. simpl.
        rewrite Hgo1. reflexivity.
      * intros m Hm. assert (m = 0%nat) by lia. subst m. simpl. rewrite Hgo.
        reflexivity.
      * exact Hrew.
      * rewrite Htot. lia.
    + destruct (IH _ _ _ _ Hok1 He1 Hds' Hgo1 E)
        as (Hok' & He' & Hdec' & Hgo' & Hin & n & R & Hn & En & Hmin & HR & Htot').
      split; [exact Hok' |]. split; [exact He' |]. split; [congruence |].
      split; [exact Hgo' |]. split; [exact Hin |].
      exists (S n), R. split; [simpl; lia |]. split; [| split; [| split]].
      * simpl take. rewrite (run_loop_step _ _ _ _ Hgo), E1. exact En.
      * intros m Hm. destruct m as [| m]; [simpl; rewrite Hgo; reflexivity |].
        simpl take. rewrite (run_loop_step _ _ _ _ Hgo), E1. apply Hmin. lia.
      * exact HR.
      * rewrite Htot', Htot, (Hnot eq_refl). lia.
Qed.

(** The loop never raises. *)
Lemma run_loop_safe (ds : list step_draws) :
  ∀ (self : Robot) (env : Environment),
    robot_ok self → env_ok env → Forall step_draws_ok ds →
    Robot.run_loop self env ds = OutOfDraws ∨
    ∃ self' env', Robot.run_loop self env ds = Ok (self', env').
Proof.
  induction ds as [| d ds IH]; intros self env Hok He Hds.
  - simpl. destruct (game_over self); [right; eauto | left; reflexivity].
  - destruct (game_over self) eqn:Hgo.
    + right. rewrite (run_loop_done _ _ _ Hgo). eauto.
    + inversion Hds as [| ? ? Hd Hds']; subst.
      rewrite (run_loop_step _ _ _ _ Hgo).
      destruct (update_bot_spec self env d Hok He Hd)
        as (action & env1 & reward & done & old & v & t &
            _ & _ & _ & He1 & _ & _ & _ & _ & Eu & Hok1).
      rewrite Eu. simpl. apply IH; assumption.
Qed.

End Simulations.

Section SimulationsOfMain.

Lemma env_ok_reset (env : Environment) : env_ok env → env_ok (Environment.reset env).
Proof.
  intros He. apply env_ok_set_robot_state; [exact He |].
  unfold in_bounds, Environment.height, Environment.width. simpl. lia.
Qed.

Lemma run_bot_outcome (self : Robot) (env : Environment) (plotting : bool)
    (ds : list step_draws) (dec : Q) :
  robot_ok self → epsilon_decrease self = Fin dec → (0 <= dec)%Q →
  env_ok env → Forall step_draws_ok ds →
  Robot.run_bot self env plotting ds = OutOfDraws ∨
  ∃ self' env',
    Robot.run_bot self env plotting ds = Ok (self', env') ∧
    robot_ok self' ∧ env_ok env' ∧ epsilon_decrease self' = Fin dec ∧
    game_over self' = true ∧ robot_state env' ∈ final_states env'.
Proof.
  intros Hok Hdec Hd He Hds. unfold Robot.run_bot.
  set (self0 := Robot.restart (Robot.set_plotting plotting self)).
  assert (Hok0 : robot_ok self0)
    by exact (robot_ok_restart _ dec (robot_ok_set_plotting _ _ Hok) Hdec Hd).
  destruct (run_loop_safe ds self0 env Hok0 He Hds) as [E | (self' & env' & E)];
    [left; exact E | right].
  destruct (run_loop_end ds self0 self' env env' Hok0 He Hds eq_refl E)
    as (Hok' & He' & Hdec' & Hgo' & Hin & _).
  exists self', env'. split; [exact E |]. split; [exact Hok' |].
  split; [exact He' |]. split; [rewrite Hdec'; exact Hdec |].
  split; [exact Hgo' | exact Hin].
Qed.

Lemma main_loop_outcome (dss : list (list step_draws)) :
  ∀ (rob : Robot) (env : Environment) (i : Z) (dec : Q),
    robot_ok rob → epsilon_decrease rob = Fin dec → (0 <= dec)%Q →
    env_ok env → Forall (Forall step_draws_ok) dss →
    Main.loop rob env i dss = OutOfDraws ∨
    ∃ rob' env',
      Main.loop rob env i dss = Ok (rob', env') ∧
      robot_ok rob' ∧ env_ok env' ∧
      (dss ≠ [] → game_over rob' = true ∧
                  robot_state env' ∈ final_states env').
Proof.
  induction dss as [| ds dss IH]; intros rob env i dec Hok Hdec Hd He Hdss.
  - right. exists rob, env. split; [reflexivity |]. split; [exact Hok |].
    split; [exact He |]. intros H. contradiction.
  - inversion Hdss as [| ? ? Hds Hdss']; subst. simpl. unfold Main.iteration.
    destruct (run_bot_outcome rob (Environment.reset env) (3000 <=? i) ds dec
                Hok Hdec Hd (env_ok_reset env He) Hds)
      as [E | (rob1 & env1 & E & Hok1 & He1 & Hdec1 & Hgo1 & Hin1)];
      rewrite E; [left; reflexivity |].
    simpl.
    destruct (IH rob1 env1 (i + 1) dec Hok1 Hdec1 Hd He1 Hdss')
      as [E' | (rob' & env' & E' & Hok' & He' & Hend)];
      [left; exact E' | right].
    exists rob', env'. split; [exact E' |]. split; [exact Hok' |].
    split; [exact He' |]. intros _.
    destruct dss as [| ds' dss]; [| apply Hend; discriminate].
    simpl in E'. injection E' as <- <-. split; assumption.
Qed.

(** [update_bot] and the loop of [run_bot] leave the [plotting] flag alone;
    the simulations of [main] before the 3000th run with the flag off. *)
Lemma update_bot_plotting (self self' : Robot) (env env' : Environment)
    (d : step_draws) :
  Robot.update_bot self env d = Ok (self', env') → plotting self' = plotting self.
Proof.
  unfold Robot.update_bot. intros E.
  apply bind_Ok_inv in E as (action & _ & E).
  apply bind_Ok_inv in E as ([env1 [[ns r] done]] & _ & E).
  apply bind_Ok_inv in E as (old & _ & E).
  apply bind_Ok_inv in E as (v & _ & E).
  apply bind_Ok_inv in E as (old' & _ & E).
  apply bind_Ok_inv in E as (t & _ & E).
  injection E as <- <-. reflexivity.
Qed.

Lemma run_loop_plotting (ds : list step_draws) :
  ∀ (self self' : Robot) (env env' : Environment),
    Robot.run_loop self env ds = Ok (self', env') → plotting self' = plotting self.
Proof.
  induction ds as [| d ds IH]; intros self self' env env' E;
    destruct (game_over self) eqn:Hgo.
  - rewrite (run_loop_done _ _ _ Hgo) in E. injection E as <- <-. reflexivity.
  - simpl in E. rewrite Hgo in E. discriminate E.
  - rewrite (run_loop_done _ _ _ Hgo) in E. injection E as <- <-. reflexivity.
  - rewrite (run_loop_step _ _ _ _ Hgo) in E.
    apply bind_Ok_inv in E as ([self1 env1] & E1 & E).
    rewrite (IH _ _ _ _ E). exact (update_bot_plotting _ _ _ _ _ E1).
Qed.

Lemma main_loop_plotting (dss : list (list step_draws)) :
  ∀ (rob rob' : Robot) (env env' : Environment) (i : Z),
    i + Z.of_nat (length dss) <= 3000 →
    Main.loop rob env i dss = Ok (rob', env') →
    dss ≠ [] → plotting rob' = false.
Proof.
  induction dss as [| ds dss IH]; intros rob rob' env env' i Hi E Hne;
    [contradiction |].
  simpl in E. apply bind_Ok_inv in E as ([rob1 env1] & E1 & E).
  destruct dss as [| ds' dss].
  - simpl in E. injection E as <- <-.
    unfold Main.iteration, Robot.run_bot in E1.
    rewrite (run_loop_plotting _ _ _ _ _ E1). simpl.
    apply Z.leb_gt. simpl in Hi. lia.
  - apply (IH rob1 rob' env1 env' (i + 1)); [| exact E | discriminate].
    change (length (ds :: ds' :: dss)) with (S (length (ds' :: dss))) in Hi. lia.
Qed.

End SimulationsOfMain.

(** X9. A simulation that returns has taken a number [n >= 1] of steps
    (exactly those: with fewer draws the loop is still running), has left
    the robot on a final state with [game_over] set, and reports as
    [total_reward] the reward of that final state minus [n]. *)
Theorem run_bot_total_reward (self self' : Robot) (env env' : Environment)
    (plotting : bool) (ds : list step_draws) (dec : Q) :
  robot_ok self → epsilon_decrease self = Fin dec → (0 <= dec)%Q →
  env_ok env → Forall step_draws_ok ds →
  Robot.run_bot self env plotting ds = Ok (self', env') →
  game_over self' = true ∧
  robot_state env' ∈ final_states env' ∧
  ∃ (n : nat) (R : Z),
    (1 <= n <= length ds)%nat ∧
    Robot.run_bot self env plotting (take n ds) = Ok (self', env') ∧
    (∀ m, (m < n)%nat → Robot.run_bot self env plotting (take m ds) = OutOfDraws) ∧
    Np.getitem2 (board_rewards env') (robot_state env').1 (robot_state env').2
    = Ok R ∧
    total_reward self' = R - Z.of_nat n.
Proof.
  intros Hok Hdec Hd He Hds E. unfold Robot.run_bot in *.
  set (self0 := Robot.restart (Robot.set_plotting plotting self)) in *.
  assert (Hok0 : robot_ok self0)
    by exact (robot_ok_restart _ dec (robot_ok_set_plotting _ _ Hok) Hdec Hd).
  destruct (run_loop_end ds self0 self' env env' Hok0 He Hds eq_refl E)
    as (_ & _ & _ & Hgo' & Hin & n & R & Hn & En & Hmin & HR & Htot).
  split; [exact Hgo' |]. split; [exact Hin |].
  exists n, R. split; [exact Hn |]. split; [exact En |].
  split; [exact Hmin |]. split; [exact HR |].
  rewrite Htot. simpl. lia.
Qed.

(** Right, right, down from the start cell: three steps into (1, 2),
    whose reward is 50. *)
Lemma run_bot_total_reward_witness :
  ∃ self' env',
    Robot.run_bot Main.rob Environment.init false right_right_down
    = Ok (self', env') ∧
    robot_state env' = (1, 2) ∧ total_reward self' = 47 ∧
    game_over self' = true ∧
    robot_state env' ∈ final_states env'.
Proof.
  destruct (Robot.run_bot Main.rob Environment.init false right_right_down)
    as [[self' env'] | e |] eqn:E; try (vm_compute in E; discriminate E).
  pose proof right_right_down_ok as Hds.
  assert (Hd : (0 <= 1 # 3000)%Q) by lra.
  destruct (run_bot_total_reward Main.rob self' Environment.init env' false
              right_right_down (1 # 3000) robot_ok_main_rob eq_refl Hd
              env_ok_init Hds E) as (Hgo & Hin & _).
  exists self', env'. split; [reflexivity |].
  vm_compute in E. injection E as <- <-.
  split; [reflexivity |]. split; [reflexivity |].
  split; [reflexivity | exact Hin].
Defined.

(** X10. The simulations of [main] that are not plotted, the first 3000,
    never raise: on a well-formed robot with a non-negative
    [epsilon_decrease], the board of [Environment()] and draws that the
    generator can produce, the loop either is still running when the draws
    end or returns, and then the table is still a 5x5x4 table, [epsilon]
    still a probability, the last simulation was not plotted and the robot
    rests on a final state. *)
Theorem main_loop_never_raises (rob : Robot) (env : Environment) (i : Z)
    (dss : list (list step_draws)) (dec : Q) :
  robot_ok rob → epsilon_decrease rob = Fin dec → (0 <= dec)%Q →
  env_ok env → Forall (Forall step_draws_ok) dss →
  i + Z.of_nat (length dss) <= 3000 →
  (∀ e, Main.loop rob env i dss ≠ Raise e) ∧
  ∀ rob' env',
    Main.loop rob env i dss = Ok (rob', env') →
    shape3 5 5 4 (Q_table rob') ∧
    (∃ e, epsilon rob' = Fin e ∧ (0 <= e <= 1)%Q) ∧
    env_ok env' ∧
    (dss ≠ [] → plotting rob' = false ∧ game_over rob' = true ∧
                robot_state env' ∈ final_states env').
Proof.
  intros Hok Hdec Hd He Hdss Hi.
  destruct (main_loop_outcome dss rob env i dec Hok Hdec Hd He Hdss)
    as [E | (rob1 & env1 & E & Hok1 & He1 & Hend)]; rewrite E.
  - split; [intros e; discriminate |]. intros rob' env' H. discriminate H.
  - split; [intros e; discriminate |].
    intros rob' env' H. injection H as <- <-.
    destruct Hok1 as (_ & Hshape & _ & _ & _ & Heps).
    split; [exact Hshape |]. split; [exact Heps |]. split; [exact He1 |].
    intros Hne. destruct (Hend Hne) as [Hgo Hin].
    split; [exact (main_loop_plotting dss rob rob1 env env1 i Hi E Hne) |].
    split; assumption.
Qed.

Lemma main_loop_never_raises_witness :
  (∀ e, Main.loop Main.rob Main.env 0 [right_right_down; down_up] ≠ Raise e) ∧
  Main.loop Main.rob Main.env 0 [right_right_down; down_up] = OutOfDraws.
Proof.
  assert (Hds : Forall (Forall step_draws_ok) [right_right_down; down_up])
    by (constructor; [exact right_right_down_ok |];
        constructor; [exact down_up_ok | constructor]).
  assert (Hd : (0 <= 1 # 3000)%Q) by lra.
  assert (Hi : 0 + Z.of_nat (length [right_right_down; down_up]) <= 3000)
    by (simpl; lia).
  split; [| vm_compute; reflexivity].
  exact (proj1 (main_loop_never_raises Main.rob Main.env 0
                  [right_right_down; down_up] (1 # 3000)
                  robot_ok_main_rob eq_refl Hd env_ok_init Hds Hi)).
Defined.

(** * The picture of [plot_board] *)

Section PlotBoard.

Import Np.

Lemma foldl_min_spec (xs : list Z) :
  ∀ x, foldl Z.min x xs ∈ x :: xs ∧ ∀ y, y ∈ x :: xs → foldl Z.min x xs <= y.
Proof.
  induction xs as [| z xs IH]; intros x; simpl.
  - split; [apply elem_of_cons; auto |].
    intros y Hy. apply elem_of_cons in Hy as [-> | Hy]; [lia |].
    apply elem_of_nil in Hy. contradiction.
  - destruct (IH (Z.min x z)) as [Hin Hle]. split.
    + apply elem_of_cons in Hin as [Hm | Hin].
      * rewrite Hm. destruct (Z.min_spec x z) as [[_ ->] | [_ ->]];
          rewrite !elem_of_cons; auto.
      * rewrite !elem_of_cons. auto.
    + intros y Hy. apply elem_of_cons in Hy as [-> | Hy].
      * pose proof (Hle (Z.min x z) (proj2 (elem_of_cons _ _ _) (or_introl eq_refl))).
        lia.
      * apply elem_of_cons in Hy as [-> | Hy].
        -- pose proof (Hle (Z.min x z) (proj2 (elem_of_cons _ _ _) (or_introl eq_refl))).
           lia.
        -- apply Hle, elem_of_cons. auto.
Qed.

Lemma foldl_max_spec (xs : list Z) :
  ∀ x, foldl Z.max x xs ∈ x :: xs ∧ ∀ y, y ∈ x :: xs → y <= foldl Z.max x xs.
Proof.
  induction xs as [| z xs IH]; intros x; simpl.
  - split; [apply elem_of_cons; auto |].
    intros y Hy. apply elem_of_cons in Hy as [-> | Hy]; [lia |].
    apply elem_of_nil in Hy. contradiction.
  - destruct (IH (Z.max x z)) as [Hin Hle]. split.
    + apply elem_of_cons in Hin as [Hm | Hin].
      * rewrite Hm. destruct (Z.max_spec x z) as [[_ ->] | [_ ->]];
          rewrite !elem_of_cons; auto.
      * rewrite !elem_of_cons. auto.
    + intros y Hy. apply elem_of_cons in Hy as [-> | Hy].
      * pose proof (Hle (Z.max x z) (proj2 (elem_of_cons _ _ _) (or_introl eq_refl))).
        lia.
      * apply elem_of_cons in Hy as [-> | Hy].
        -- pose proof (Hle (Z.max x z) (proj2 (elem_of_cons _ _ _) (or_introl eq_refl))).
           lia.
        -- apply Hle, elem_of_cons. auto.
Qed.

Lemma amin_spec (arr : list (list Z)) (x : Z) :
  x ∈ concat arr →
  ∃ lo, Plotting.amin arr = Ok lo ∧ lo ∈ concat arr ∧
        ∀ y, y ∈ concat arr → lo <= y.
Proof.
  unfold Plotting.amin. intros Hx.
  destruct (concat arr) as [| z zs]; [apply elem_of_nil in Hx; contradiction |].
  destruct (foldl_min_spec zs z) as [Hin Hle]. eauto.
Qed.

Lemma amax_spec (arr : list (list Z)) (x : Z) :
  x ∈ concat arr →
  ∃ hi, Plotting.amax arr = Ok hi ∧ hi ∈ concat arr ∧
        ∀ y, y ∈ concat arr → y <= hi.
Proof.
  unfold Plotting.amax. intros Hx.
  destruct (concat arr) as [| z zs]; [apply elem_of_nil in Hx; contradiction |].
  destruct (foldl_max_spec zs z) as [Hin Hle]. eauto.
Qed.

Lemma getitem2_elem_of {A} (arr : list (list A)) (i j : Z) (x : A) :
  getitem2 arr i j = Ok x → x ∈ concat arr.
Proof.
  unfold getitem2. intros H. apply bind_Ok_inv in H as (row & Hr & H).
  apply getitem_elem_of in Hr, H.
  apply list_elem_of_In, in_concat. exists row.
  split; apply list_elem_of_In; assumption.
Qed.

Lemma getitem_map {A B} (f : A → B) (arr : list A) (i : Z) :
  getitem (map f arr) i = (x ← getitem arr i; Ok (f x)).
Proof.
  unfold getitem. rewrite length_map.
  destruct (index (length arr) i) as [k | e |]; simpl; try reflexivity.
  clear i. revert k. induction arr as [| y arr IH]; intros [| k]; simpl;
    try reflexivity.
  apply IH.
Qed.

Lemma getitem2_map {A B} (f : A → B) (arr : list (list A)) (i j : Z) :
  getitem2 (map (map f) arr) i j = (x ← getitem2 arr i j; Ok (f x)).
Proof.
  unfold getitem2. rewrite getitem_map.
  destruct (getitem arr i) as [row | e |]; simpl; try reflexivity.
  apply getitem_map.
Qed.

Lemma shape2_map {A B} (f : A → B) (h w : nat) (arr : list (list A)) :
  shape2 h w arr → shape2 h w (map (map f) arr).
Proof.
  intros [Hh Hw]. split; [rewrite length_map; exact Hh |].
  apply Forall_forall. intros row Hrow.
  apply list_elem_of_In, in_map_iff in Hrow as (row0 & <- & Hin).
  rewrite length_map. rewrite Forall_forall in Hw.
  apply Hw, list_elem_of_In, Hin.
Qed.

(** Writing one cell of a rectangular array. *)
Lemma setitem2_in_range {A} (h w : nat) (arr : list (list A)) (i j : Z) (x : A) :
  shape2 h w arr → 0 <= i < Z.of_nat h → 0 <= j < Z.of_nat w →
  ∃ arr', Plotting.setitem2 arr i j x = Ok arr' ∧
          getitem2 arr' i j = Ok x ∧
          ∀ i' j', 0 <= i' → 0 <= j' → (i', j') ≠ (i, j) →
                   getitem2 arr' i' j' = getitem2 arr i' j'.
Proof.
  intros [Hh Hw] Hi Hj.
  destruct (getitem_in_range arr i) as (row & Hrow & Erow); [lia |].
  pose proof (Forall_lookup_1 _ _ _ _ Hw Hrow) as Hlen. simpl in Hlen.
  exists (<[Z.to_nat i := <[Z.to_nat j := x]> row]> arr).
  split; [| split].
  - unfold Plotting.setitem2. rewrite Erow, bind_Ok.
    rewrite setitem_in_range by lia. rewrite bind_Ok.
    apply setitem_in_range. lia.
  - unfold getitem2.
    rewrite (getitem_lookup _ i (<[Z.to_nat j := x]> row));
      [| lia | apply list_lookup_insert_eq; lia].
    rewrite bind_Ok. apply getitem_lookup; [lia |].
    apply list_lookup_insert_eq. lia.
  - intros i' j' Hi' Hj' Hne. unfold getitem2.
    destruct (decide (i' = i)) as [-> | Hni];
      [| rewrite getitem_insert_ne by lia; reflexivity].
    rewrite (getitem_lookup _ i (<[Z.to_nat j := x]> row));
      [| lia | apply list_lookup_insert_eq; lia].
    rewrite Erow, !bind_Ok.
    assert (j' ≠ j) by congruence.
    apply getitem_insert_ne; lia.
Qed.

Lemma wrap64_small (z : Z) : - 2 ^ 63 <= z < 2 ^ 63 → Plotting.wrap64 z = z.
Proof.
  intros H. unfold Plotting.wrap64. rewrite Z.mod_small; lia.
Qed.

Lemma small_rewards_elem_of (board : list (list Z)) (y : Z) :
  small_rewards board → y ∈ concat board → - 2 ^ 40 <= y <= 2 ^ 40.
Proof.
  intros Hb Hy. apply Forall_concat in Hb. rewrite Forall_forall in Hb.
  exact (Hb y Hy).
Qed.

Lemma small_rewards_init : small_rewards Environment.init_board_rewards.
Proof. apply (bool_decide_unpack _). vm_compute. exact I. Qed.

(** A pixel off the robot's cell, when the rewards are not all equal. *)
Lemma pixel_value (invalid x lo hi : Z) :
  lo < hi →
  Plotting.astype_int invalid (Plotting.true_divide ((x - lo) * 255) (hi - lo))
  = Z.quot ((x - lo) * 255) (hi - lo).
Proof.
  intros H. unfold Plotting.true_divide.
  destruct (Z.eqb_spec (hi - lo) 0) as [E | _]; [lia |].
  destruct (hi - lo) as [| p | p] eqn:E; try lia.
  unfold Plotting.astype_int, Qdiv, Qinv, Qmult, inject_Z. simpl.
  rewrite Z.mul_1_r. reflexivity.
Qed.

End PlotBoard.

(** X13. The picture of [plot_board] on a rectangular board of rewards of
    at most 40 bits, far from where the [int64] arithmetic of the
    normalisation wraps around and from where its division is inexact,
    with the robot on one of its cells: the robot's cell is 300; when the rewards
    are not all equal, every other cell is a grey level between 0 and 255,
    0 for the smallest reward and 255 for the largest; when they are all
    equal, the division by zero raises nothing and every other cell is
    what the cast makes of [nan]. *)
Theorem plot_board_pixels (invalid : Z) (board : list (list Z)) (h w : nat)
    (s : state) :
  shape2 h w board → small_rewards board →
  0 <= s.1 < Z.of_nat h → 0 <= s.2 < Z.of_nat w →
  ∃ px,
    Plotting.plot_board invalid board s = Ok px ∧
    Np.getitem2 px s.1 s.2 = Ok 300 ∧
    ∀ i j x,
      0 <= i < Z.of_nat h → 0 <= j < Z.of_nat w → (i, j) ≠ (s.1, s.2) →
      Np.getitem2 board i j = Ok x →
      ∃ p, Np.getitem2 px i j = Ok p ∧
           ((∀ y, y ∈ concat board → y = x) → p = invalid) ∧
           ((∃ y, y ∈ concat board ∧ y ≠ x) →
            0 <= p <= 255 ∧
            ((∀ y, y ∈ concat board → x <= y) → p = 0) ∧
            ((∀ y, y ∈ concat board → y <= x) → p = 255)).
Proof.
  intros Hshape Hsmall Hr Hc.
  assert (Hsome : ∃ x0, x0 ∈ concat board).
  { destruct Hshape as [Hh Hw].
    destruct (getitem_in_range board s.1) as (row & Hrow & Erow); [lia |].
    pose proof (Forall_lookup_1 _ _ _ _ Hw Hrow) as Hlen. simpl in Hlen.
    destruct (getitem_in_range row s.2) as (x0 & _ & Ex0); [lia |].
    exists x0. apply (getitem2_elem_of board s.1 s.2).
    unfold Np.getitem2. rewrite Erow, bind_Ok. exact Ex0. }
  destruct Hsome as [x0 Hx0].
  destruct (amin_spec board x0 Hx0) as (lo & Elo & Hlo_in & Hlo).
  destruct (amax_spec board x0 Hx0) as (hi & Ehi & Hhi_in & Hhi).
  pose proof (small_rewards_elem_of board lo Hsmall Hlo_in) as Blo.
  pose proof (small_rewards_elem_of board hi Hsmall Hhi_in) as Bhi.
  set (f := λ x, Plotting.astype_int invalid
                   (Plotting.true_divide
                      (Plotting.wrap64 (Plotting.wrap64 (x - lo) * 255))
                      (Plotting.wrap64 (hi - lo)))).
  destruct (setitem2_in_range h w (map (map f) board) s.1 s.2 300
              (shape2_map f h w board Hshape) Hr Hc) as (px & Epx & Hget & Hframe).
  exists px. split; [| split; [exact Hget |]].
  - unfold Plotting.plot_board. rewrite Elo, bind_Ok, Ehi, bind_Ok, bind_Ok.
    exact Epx.
  - intros i j x Hi Hj Hne Hx. exists (f x). split.
    + rewrite Hframe by (lia || exact Hne). rewrite getitem2_map, Hx. reflexivity.
    + pose proof (getitem2_elem_of _ _ _ _ Hx) as Hin.
      pose proof (Hlo x Hin) as H1. pose proof (Hhi x Hin) as H2.
      pose proof (small_rewards_elem_of board x Hsmall Hin) as Bx.
      assert (Hf : f x = Plotting.astype_int invalid
                           (Plotting.true_divide ((x - lo) * 255) (hi - lo))).
      { unfold f. rewrite (wrap64_small (x - lo)) by lia.
        rewrite (wrap64_small ((x - lo) * 255)) by lia.
        rewrite (wrap64_small (hi - lo)) by lia. reflexivity. }
      rewrite Hf. clear Hf Blo Bhi Bx. split.
      * intros Hconst. pose proof (Hconst lo Hlo_in). pose proof (Hconst hi Hhi_in).
        subst lo hi. unfold Plotting.true_divide.
        rewrite Z.sub_diag. reflexivity.
      * intros (y & Hy & Hyx).
        pose proof (Hlo y Hy). pose proof (Hhi y Hy).
        assert (Hlt : lo < hi) by lia.
        rewrite (pixel_value invalid x lo hi Hlt). split; [| split].
        -- split; [apply Z.quot_pos; nia |].
           apply Z.quot_le_upper_bound; nia.
        -- intros Hmin. pose proof (Hmin lo Hlo_in).
           assert (x = lo) by lia. subst x.
           rewrite Z.sub_diag. apply Z.quot_0_l. lia.
        -- intros Hmax. pose proof (Hmax hi Hhi_in).
           assert (x = hi) by lia. subst x.
           rewrite Z.mul_comm. apply Z.quot_mul. lia.
Qed.

(** The board of [Environment()], the robot on the start cell: the final
    state with reward 100 is white, the one with -100 black. *)
Lemma plot_board_pixels_witness :
  ∃ px,
    Plotting.plot_board 0 Environment.init_board_rewards (0, 0) = Ok px ∧
    Np.getitem2 px 0 0 = Ok 300 ∧
    Np.getitem2 px 1 3 = Ok 255 ∧
    Np.getitem2 px 1 1 = Ok 0.
Proof.
  assert (Hshape : shape2 5 5 Environment.init_board_rewards)
    by (split; [reflexivity | repeat constructor]).
  destruct (plot_board_pixels 0 Environment.init_board_rewards 5 5 (0, 0) Hshape
              small_rewards_init)
    as (px & E & H300 & _); [simpl; lia | simpl; lia |].
  exists px. split; [exact E |]. split; [exact H300 |].
  vm_compute in E. injection E as <-. split; reflexivity.
Defined.
